(** * promql/series: the selector-presence check of pint

    A shallow embedding of [internal/checks/promql_series.go] and the
    properties of its decision pipeline.

    Conventions of the embedding.
    - [time.Time] is an integer number of nanoseconds counted from Go's zero
      [Time] (January 1, year 1, 00:00:00 UTC), so that [IsZero] is the test
      against 0.  [Time.Add] is addition; its overflow, some 292 billion
      years away from the zero time, is out of the modelled range.
    - [time.Duration] is a signed 64-bit number of nanoseconds.  Arithmetic on
      durations wraps ([wrap64]); [Time.Sub] saturates, as in Go.
    - The query backend, the directive store of the rule, the PromQL printer
      and the text helpers live outside this file of the repository; they
      are taken as parameters (class [Lib], records [FailoverGroup] and
      [Rule]).
    - [Check] appends to one accumulator of problems and talks to the backend
      and to the directive store; both are threaded through a small state
      monad whose state also records every call made (the trace). *)

From Stdlib Require Import ZArith Lia.
From stdpp Require Import base option list gmap strings pretty.

Local Open Scope string_scope.
Local Open Scope list_scope.
Local Open Scope Z_scope.

(** ** Go integers, durations and instants *)

Definition minInt64 : Z := - 2 ^ 63.
Definition maxInt64 : Z := 2 ^ 63 - 1.

(** Two's complement wrap-around of a 64-bit signed integer. *)
Definition wrap64 (z : Z) : Z := (z + 2 ^ 63) mod 2 ^ 64 - 2 ^ 63.

Definition Nanosecond : Z := 1.
Definition Millisecond : Z := 1000000.
Definition Second : Z := 1000000000.
Definition Minute : Z := 60 * Second.
Definition Hour : Z := 60 * Minute.

Module Time.
(** [t.Add(d)] *)
Definition Add (t d : Z) : Z := t + d.

(** [t.Sub(u)]: the difference, saturated to the range of a Duration. *)
Definition Sub (t u : Z) : Z :=
  if t - u <? minInt64 then minInt64
  else if maxInt64 <? t - u then maxInt64
  else t - u.

Definition Before (t u : Z) : bool := t <? u.
Definition After (t u : Z) : bool := u <? t.
Definition IsZero (t : Z) : bool := t =? 0.

(** Seconds between the zero Time and the Unix epoch. *)
Definition unixToInternal : Z := 62135596800.

(** [time.Unix(sec, 0)] *)
Definition Unix (sec : Z) : Z := (unixToInternal + sec) * Second.
End Time.

(** [model.Time.Time()]: a Prometheus timestamp is a number of milliseconds
    since the Unix epoch. *)
Definition TimestampTime (ms : Z) : Z :=
  Time.unixToInternal * Second + ms * Millisecond.

(** [int(d.Seconds())].  [Seconds] goes through float64; on a duration in
    the int64 range that is a whole number of milliseconds (all interval
    lengths built from Prometheus timestamps and the fixed step are) the
    conversion back to [int] is the quotient truncated toward zero. *)
Definition intSeconds (d : Z) : Z := Z.quot d Second.

(** ** Presence intervals *)

Record timeRange := mkTimeRange {
  labels : gmap string string;
  start : Z;
  end_ : Z
}.

Record timeRanges := mkTimeRanges {
  uri : string;
  from : Z;
  until : Z;
  step : Z;
  ranges : list timeRange
}.

(** One series of a ranged query: its label set and the timestamps of its
    samples, in milliseconds.  The sample values are not read. *)
Record SampleStream := mkSampleStream {
  Metric : gmap string string;
  Values : list Z
}.

Record RangeQueryResult := mkRangeQueryResult {
  rqURI : string;
  rqStart : Z;
  rqEnd : Z;
  rqSamples : list SampleStream
}.

(** The test of the inner loop of [serieTimeRanges]. *)
Definition covers (ls : gmap string string) (ts : Z) (r : timeRange) : bool :=
  bool_decide (labels r = ls)
  && negb (Time.Before ts (start r))
  && negb (Time.After ts (end_ r)).

(** The [for i := range tr.ranges] loop: the first range that covers the
    sample has its end moved; [None] when [found] stays false. *)
Fixpoint extendFirst (stp : Z) (ls : gmap string string) (ts : Z)
    (rs : list timeRange) : option (list timeRange) :=
  match rs with
  | [] => None
  | r :: rs' =>
      if covers ls ts r
      then Some (mkTimeRange (labels r) (start r) (Time.Add ts stp) :: rs')
      else cons r <$> extendFirst stp ls ts rs'
  end.

Definition addSample (stp : Z) (ls : gmap string string)
    (rs : list timeRange) (ts : Z) : list timeRange :=
  match extendFirst stp ls ts rs with
  | Some rs' => rs'
  | None => rs ++ [mkTimeRange ls ts (Time.Add ts stp)]
  end.

Definition addSeries (stp : Z) (rs : list timeRange) (s : SampleStream)
    : list timeRange :=
  fold_left (addSample stp (Metric s)) (TimestampTime <$> Values s) rs.

Definition buildRanges (stp : Z) (samples : list SampleStream)
    : list timeRange :=
  fold_left (addSeries stp) samples [].

(** *** Derived values of a [timeRanges] *)

Definition hasLabel (name : string) (r : timeRange) : bool :=
  bool_decide (is_Some (labels r !! name)).

(** A label set is a map, so a range is appended at most once. *)
Definition withLabelName (name : string) (tr : timeRanges) : list timeRange :=
  filter (fun r => hasLabel name r = true) (ranges tr).

(** The keys of the Go map [vm]; only their number is used. *)
Definition labelValues (name : string) (tr : timeRanges) : gset string :=
  list_to_set (omap (fun r => labels r !! name) (ranges tr)).

Definition duration (tr : timeRanges) : Z := Time.Sub (until tr) (from tr).

Definition sumLife (rs : list timeRange) : Z :=
  fold_left (fun d r => wrap64 (d + Time.Sub (end_ r) (start r))) rs 0.

Definition avgLife (tr : timeRanges) : Z :=
  match ranges tr with
  | [] => 0
  | _ => wrap64 (Second * Z.quot (intSeconds (sumLife (ranges tr)))
                                 (Z.of_nat (length (ranges tr))))
  end.

Definition oldest (tr : timeRanges) : Z :=
  fold_left (fun ts r =>
    if Time.IsZero ts || Time.Before (start r) ts then start r else ts)
    (ranges tr) 0.

Definition newest (tr : timeRanges) : Z :=
  fold_left (fun ts r =>
    if Time.IsZero ts || Time.After (end_ r) ts then end_ r else ts)
    (ranges tr) 0.

(** ** Selectors, rules and findings *)

Inductive MatchType := MatchEqual | MatchNotEqual | MatchRegexp | MatchNotRegexp.

Global Instance MatchType_eq_dec : EqDecision MatchType.
Proof. solve_decision. Defined.

(** [labels.Matcher] *)
Record Matcher := mkMatcher {
  lmType : MatchType;
  lmName : string;
  lmValue : string
}.

(** [labels.MetricName] *)
Definition MetricName : string := "__name__".

(** [labels.MustNewMatcher]; it panics only on a regular expression that
    does not compile, and the one caller passes the constant [".+"]. *)
Definition MustNewMatcher (t : MatchType) (n v : string) : Matcher :=
  mkMatcher t n v.

(** The two fields of [promParser.VectorSelector] that the check keeps. *)
Record VectorSelector := mkVectorSelector {
  Name : string;
  LabelMatchers : list Matcher
}.

(** A node of the parsed expression: a vector selector, with the offset that
    [getSelectors] drops, or any other kind of node. *)
Inductive NodeKind :=
| VectorSelectorNode (name : string) (matchers : list Matcher) (offset : Z)
| OtherNode.

#[warnings="-register-all"]
Inductive PromQLNode :=
| mkPromQLNode (node : NodeKind) (children : list PromQLNode).

(** Modelled from the spec: the declaration of the severities is not in this
    file; the spec gives severity ∈ {Information, Warning, Bug}. *)
Inductive Severity := Information | Warning | Bug.

Global Instance Severity_eq_dec : EqDecision Severity.
Proof. solve_decision. Defined.

Record Problem := mkProblem {
  Fragment : string;
  Lines : list Z;
  Reporter_ : string;
  Text : string;
  Severity_ : Severity
}.

(** A directive found on the rule: its text ([String()]) and its value. *)
Record Comment := mkComment {
  cmtString : string;
  cmtValue : string
}.

(** [parser.Rule], as far as the check reads it: the syntax error and the
    query of [rule.Expr()], the lines of the expression and of the rule, and
    the directive store. *)
Record Rule := mkRule {
  SyntaxError : option string;
  Query : PromQLNode;
  exprLines : list Z;
  LineRange : list Z;
  HasComment : string -> bool;
  GetComment : list string -> option Comment
}.

(** [discovery.Entry], as far as the check reads it: the alert name when
    [Rule.AlertingRule] is not nil, the record name when
    [Rule.RecordingRule] is not nil, and [Rule.Error.Err]. *)
Record Entry := mkEntry {
  Path : string;
  AlertingRule : option string;
  RecordingRule : option string;
  RuleError : option string
}.

(** ** The outside world *)

(** Every call that leaves the check. *)
Inductive Event :=
| EvQuery (query : string)
| EvRangeQuery (query : string) (lookback stp : Z)
| EvHasComment (comment : string)
| EvGetComment (key : list string).

(** The result of an instant query; each value of [Series] stands for
    [int(s.Value)] of one returned sample. *)
Record QueryResult := mkQueryResult {
  qURI : string;
  Series : list Z
}.

(** [promapi.FailoverGroup].  An answer may depend on everything that was
    asked before (the trace), so the backend need not be deterministic in
    the query alone. *)
Record FailoverGroup := mkFailoverGroup {
  promName : string;
  promQuery : list Event -> string -> QueryResult + string;
  promRangeQuery : list Event -> string -> Z -> Z -> RangeQueryResult + string
}.

Record SeriesCheck := mkSeriesCheck { prom : FailoverGroup }.

(** Functions of other packages and of other files of this package. *)
Class Lib := {
  (** [VectorSelector.String()] *)
  selectorString : VectorSelector -> string;
  (** [Matcher.String()] *)
  matcherString : Matcher -> string;
  (** the [%q] verb of [fmt] *)
  quote : string -> string;
  (** [promText(name, uri)] *)
  promText : string -> string -> string;
  (** [textAndSeverityFromError(err, reporter, prom, default)] *)
  textAndSeverityFromError :
    string -> string -> string -> Severity -> string * Severity;
  (** [model.ParseDuration] *)
  ParseDuration : string -> Z + string;
  (** [output.HumanizeDuration] *)
  HumanizeDuration : Z -> string;
  (** [time.Since], which reads the clock *)
  timeSince : Z -> Z;
  (** [Duration.Round] *)
  durationRound : Z -> Z -> Z
}.

(** ** The state monad of [Check] *)

Record St := mkSt {
  problems : list Problem;
  trace : list Event
}.

Definition M (A : Type) : Type := St -> A * St.

Global Instance M_ret : MRet M := fun A a st => (a, st).
Global Instance M_bind : MBind M := fun A B f m st =>
  let (a, st') := m st in f a st'.

(** [problems = append(problems, p...)] *)
Definition appendProblems (ps : list Problem) : M unit :=
  fun st => (tt, mkSt (problems st ++ ps) (trace st)).

(** [len(problems)] *)
Definition lenProblems : M nat :=
  fun st => (length (problems st), st).

Definition emit (e : Event) : M unit :=
  fun st => (tt, mkSt (problems st) (trace st ++ [e])).

Definition getTrace : M (list Event) := fun st => (trace st, st).

Definition SeriesCheckName : string := "promql/series".

(** ** The check *)

Section SeriesCheck.
Context `{!Lib}.
Variable c : SeriesCheck.

Definition Reporter : string := SeriesCheckName.

(** *** Calls that leave the check, each recorded in the trace *)

Definition ruleHasComment (rule : Rule) (comment : string) : M bool :=
  emit (EvHasComment comment);; mret (HasComment rule comment).

Definition ruleGetComment (rule : Rule) (key : list string)
    : M (option Comment) :=
  emit (EvGetComment key);; mret (GetComment rule key).

Definition Query_ (query : string) : M (QueryResult + string) :=
  tr ← getTrace; emit (EvQuery query);; mret (promQuery (prom c) tr query).

Definition RangeQuery_ (query : string) (lookback stp : Z)
    : M (RangeQueryResult + string) :=
  tr ← getTrace; emit (EvRangeQuery query lookback stp);;
  mret (promRangeQuery (prom c) tr query lookback stp).

(** *** Helpers of the source file *)

Fixpoint getSelectors (n : PromQLNode) : list VectorSelector :=
  match n with
  | mkPromQLNode node children =>
      match node with
      | VectorSelectorNode name matchers _ => [mkVectorSelector name matchers]
      | OtherNode => []
      end
      ++ (fix walk (cs : list PromQLNode) : list VectorSelector :=
            match cs with
            | [] => []
            | child :: cs' => getSelectors child ++ walk cs'
            end) children
  end.

Definition stripLabels (selector : VectorSelector) : VectorSelector :=
  fold_left (fun s lm =>
      if String.eqb (lmName lm) MetricName
      then mkVectorSelector (lmValue lm) (LabelMatchers s ++ [lm])
      else s)
    (LabelMatchers selector)
    (mkVectorSelector (Name selector) []).

Definition sinceDesc (t : Z) : string :=
  let dur := timeSince t in
  if Hour * 24 <? dur
  then HumanizeDuration (durationRound dur Hour)
  else HumanizeDuration (durationRound dur Minute).

Definition queryProblem (err : string) (selector : string) (rule : Rule)
    : Problem :=
  let '(text, severity) :=
    textAndSeverityFromError err Reporter (promName (prom c)) Bug in
  mkProblem selector (exprLines rule) Reporter text severity.

Definition instantSeriesCount (query : string) : M (Z * string + string) :=
  r ← Query_ query;
  match r with
  | inr err => mret (inr err)
  | inl qr =>
      mret (inl (fold_left (fun series v => wrap64 (series + v)) (Series qr) 0,
                 qURI qr))
  end.

Definition serieTimeRanges (query : string) (lookback stp : Z)
    : M (timeRanges + string) :=
  r ← RangeQuery_ query lookback stp;
  match r with
  | inr err => mret (inr err)
  | inl qr =>
      mret (inl (mkTimeRanges (rqURI qr) (rqStart qr) (rqEnd qr) stp
                   (buildRanges stp (rqSamples qr))))
  end.

(** The three keys probed by [getMinAge], in the order of the source. *)
Definition minAgeKeys (selector : VectorSelector) : list (list string) :=
  let bareSelector := stripLabels selector in
  [ ["rule/set"; Reporter; "min-age"];
    ["rule/set";
     Reporter +:+ "(" +:+ selectorString bareSelector +:+ ")"; "min-age"];
    ["rule/set";
     Reporter +:+ "(" +:+ selectorString selector +:+ ")"; "min-age"] ].

(** One turn of the loop of [getMinAge]. *)
Definition minAgeStep (rule : Rule) (acc : Z * list Problem)
    (s : list string) : M (Z * list Problem) :=
  o ← ruleGetComment rule s;
  match o with
  | Some cmt =>
      match ParseDuration (cmtValue cmt) with
      | inr err =>
          mret (acc.1,
                acc.2 ++ [mkProblem (cmtString cmt) (LineRange rule) Reporter
                            ("failed to parse pint comment as duration: "
                               +:+ err)
                            Warning])
      | inl dur => mret (dur, acc.2)
      end
  | None => mret acc
  end.

Fixpoint foldM {A B : Type} (f : A -> B -> M A) (l : list B) (a : A) : M A :=
  match l with
  | [] => mret a
  | b :: l' => a' ← f a b; foldM f l' a'
  end.

Definition getMinAge (rule : Rule) (selector : VectorSelector)
    : M (Z * list Problem) :=
  foldM (minAgeStep rule) (minAgeKeys selector) (Hour * 2, []).

Definition isLabelValueIgnored (rule : Rule) (selector : VectorSelector)
    (labelName : string) : M bool :=
  let bareSelector := stripLabels selector in
  foldM (fun found s =>
           if found : bool then mret true else ruleHasComment rule s)
    [ "rule/set " +:+ Reporter +:+ " ignore/label-value " +:+ labelName;
      "rule/set " +:+ Reporter +:+ "(" +:+ selectorString bareSelector
        +:+ ") ignore/label-value " +:+ labelName;
      "rule/set " +:+ Reporter +:+ "(" +:+ selectorString selector
        +:+ ") ignore/label-value " +:+ labelName ]
    false.

Definition rangeLookback : Z := Hour * 24 * 7.
Definition rangeStep : Z := Minute * 5.

(** *** The body of the loop over selectors, step by step *)

Section Selector.
Variable rule : Rule.
Variable entries : list Entry.
Variable selector : VectorSelector.

Definition bareSelector : VectorSelector := stripLabels selector.

(** [rule.HasComment(c1) || rule.HasComment(c2)] *)
Definition isDisabled : M bool :=
  let c1 := "disable " +:+ SeriesCheckName +:+ "("
              +:+ selectorString selector +:+ ")" in
  let c2 := "disable " +:+ SeriesCheckName +:+ "("
              +:+ selectorString bareSelector +:+ ")" in
  d ← ruleHasComment rule c1;
  if d : bool then mret true else ruleHasComment rule c2.

Definition metricName : string :=
  if String.eqb (Name selector) ""
  then match List.find (fun lm => String.eqb (lmName lm) MetricName
                                  && bool_decide (lmType lm = MatchEqual))
               (LabelMatchers selector) with
       | Some lm => lmValue lm
       | None => ""
       end
  else Name selector.

(** **** 0. Special case for alert metrics *)

Definition isAlertsMetric : bool :=
  String.eqb metricName "ALERTS" || String.eqb metricName "ALERTS_FOR_STATE".

Definition alertname : string :=
  fold_left (fun an lm =>
      if String.eqb (lmName lm) "alertname"
         && negb (bool_decide (lmType lm = MatchRegexp))
         && negb (bool_decide (lmType lm = MatchNotRegexp))
      then lmValue lm else an)
    (LabelMatchers selector) "".

Definition providesAlert (an : string) (entry : Entry) : bool :=
  match AlertingRule entry with
  | Some alert =>
      bool_decide (RuleError entry = None) && String.eqb alert an
  | None => false
  end.

Definition alertFound : Problem :=
  mkProblem (selectorString selector) (exprLines rule) Reporter
    (selectorString selector
       +:+ " metric is generated by alerts and found alerting rule named "
       +:+ quote alertname)
    Information.

Definition alertMissing : Problem :=
  mkProblem (selectorString selector) (exprLines rule) Reporter
    (selectorString selector
       +:+ " metric is generated by alerts but didn't found any rule named "
       +:+ quote alertname)
    Bug.

Definition alertsCheck : M unit :=
  if negb (String.eqb alertname "")
  then match List.find (providesAlert alertname) entries with
       | Some _ => appendProblems [alertFound]
       | None => appendProblems [alertMissing]
       end
  else mret tt.

Definition labelNames : list string :=
  lmName <$> filter (fun lm => negb (String.eqb (lmName lm) MetricName) = true)
                    (LabelMatchers selector).

(** **** 2. The bare metric was never there *)

Definition providesRecord (name : string) (entry : Entry) : bool :=
  match RecordingRule entry with
  | Some record =>
      bool_decide (RuleError entry = None) && String.eqb record name
  | None => false
  end.

Definition noSeriesText (trs : timeRanges) : string :=
  promText (promName (prom c)) (uri trs) +:+ " didn't have any series for "
    +:+ quote (selectorString bareSelector) +:+ " metric in the last "
    +:+ sinceDesc (from trs).

Definition neverPresent (trs : timeRanges) : M unit :=
  match List.find (providesRecord (selectorString bareSelector)) entries with
  | Some _ =>
      appendProblems
        [mkProblem (selectorString bareSelector) (exprLines rule) Reporter
           (noSeriesText trs +:+
            " but found recording rule that generates it, skipping further checks")
           Information]
  | None =>
      appendProblems
        [mkProblem (selectorString bareSelector) (exprLines rule) Reporter
           (noSeriesText trs) Bug]
  end.

(** **** 3. One label of the selector *)

Definition labelMissing (name : string) (trsLabelCount : timeRanges)
    : Problem :=
  mkProblem (selectorString selector) (exprLines rule) Reporter
    (promText (promName (prom c)) (uri trsLabelCount) +:+ " has "
       +:+ quote (selectorString bareSelector)
       +:+ " metric but there are no series with " +:+ quote name
       +:+ " label in the last " +:+ sinceDesc (from trsLabelCount))
    Bug.

(** The test of line 209. *)
Definition highChurn (name : string) (trsLabelCount : timeRanges) : bool :=
  (size (labelValues name trsLabelCount) =? length (ranges trsLabelCount))%nat
  && (avgLife trsLabelCount <? Z.quot (duration trsLabelCount) 2).

Definition labelQuery (name : string) : string :=
  let l := mkVectorSelector (Name bareSelector)
             (LabelMatchers bareSelector
                ++ [MustNewMatcher MatchRegexp name ".+"]) in
  "count(" +:+ selectorString l +:+ ") by (" +:+ name +:+ ")".

Definition labelCheck (highChurnLabels : list string) (name : string)
    : M (list string) :=
  r ← serieTimeRanges (labelQuery name) rangeLookback rangeStep;
  match r with
  | inr err =>
      appendProblems [queryProblem err (selectorString selector) rule];;
      mret highChurnLabels
  | inl trsLabelCount =>
      (if (length (withLabelName name trsLabelCount) =? 0)%nat
       then appendProblems [labelMissing name trsLabelCount]
       else mret tt);;
      if highChurn name trsLabelCount
      then mret (highChurnLabels ++ [name])
      else mret highChurnLabels
  end.

(** **** 4. The bare metric is no longer there *)

Definition metricGone (trs : timeRanges) : bool :=
  (length (ranges trs) =? 1)%nat
  && negb (Time.After (oldest trs) (Time.Add (from trs) rangeStep))
  && Time.Before (newest trs) (Time.Add (until trs) (wrap64 (rangeStep * -1))).

(** [!t.newest().Before(t.until.Add(time.Duration(minAge) * -1))] *)
Definition withinMinAge (t : timeRanges) (minAge : Z) : bool :=
  negb (Time.Before (newest t) (Time.Add (until t) (wrap64 (minAge * -1)))).

Definition metricLastSeen (trs : timeRanges) : Problem :=
  mkProblem (selectorString bareSelector) (exprLines rule) Reporter
    (promText (promName (prom c)) (uri trs) +:+ " doesn't currently have "
       +:+ quote (selectorString bareSelector) +:+ ", it was last present "
       +:+ sinceDesc (newest trs) +:+ " ago")
    Bug.

Definition metricDisappearance (trs : timeRanges) : M unit :=
  mp ← getMinAge rule selector;
  (if (0 <? length mp.2)%nat then appendProblems mp.2 else mret tt);;
  if withinMinAge trs mp.1
  then mret tt
  else appendProblems [metricLastSeen trs].

(** **** 5. to 7. One matcher of the selector *)

Definition labelSelector (lm : Matcher) : VectorSelector :=
  mkVectorSelector metricName [lm].

(** 5. The matcher never matched; [trs] is the history of the bare metric. *)
Definition matcherAbsent (trs : timeRanges) (highChurnLabels : list string)
    (lm : Matcher) (trsLabel : timeRanges) : Problem :=
  let text :=
    promText (promName (prom c)) (uri trsLabel) +:+ " has "
      +:+ quote (selectorString bareSelector) +:+ " metric with "
      +:+ quote (lmName lm) +:+ " label but there are no series matching {"
      +:+ matcherString lm +:+ "} in the last " +:+ sinceDesc (from trs) in
  match List.find (String.eqb (lmName lm)) highChurnLabels with
  | Some name =>
      mkProblem (selectorString selector) (exprLines rule) Reporter
        (text +:+ ", " +:+ quote name +:+ " looks like a high churn label")
        Warning
  | None =>
      mkProblem (selectorString selector) (exprLines rule) Reporter text Bug
  end.

(** The test of step 6, as written at lines 299 to 301. *)
Definition matcherGone (trsLabel : timeRanges) : bool :=
  (length (ranges trsLabel) =? 1)%nat
  && negb (Time.After (oldest trsLabel)
             (Time.Add (Time.Add (until trsLabel) (rangeLookback - 1))
                rangeStep))
  && Time.Before (newest trsLabel)
       (Time.Add (until trsLabel) (wrap64 (rangeStep * -1))).

Definition matcherLastSeen (trs : timeRanges) (lm : Matcher)
    (trsLabel : timeRanges) : Problem :=
  mkProblem (selectorString (labelSelector lm)) (exprLines rule) Reporter
    (promText (promName (prom c)) (uri trs) +:+ " has "
       +:+ quote (selectorString bareSelector)
       +:+ " metric but doesn't currently have series matching {"
       +:+ matcherString lm +:+ "}, such series was last present "
       +:+ sinceDesc (newest trsLabel) +:+ " ago")
    Bug.

Definition matcherDisappearance (trs : timeRanges) (lm : Matcher)
    (trsLabel : timeRanges) : M unit :=
  mp ← getMinAge rule selector;
  (if (0 <? length mp.2)%nat then appendProblems mp.2 else mret tt);;
  if withinMinAge trsLabel mp.1
  then mret tt
  else appendProblems [matcherLastSeen trs lm trsLabel].

Definition matcherSometimes (trs : timeRanges) (lm : Matcher)
    (trsLabel : timeRanges) : Problem :=
  mkProblem (selectorString selector) (exprLines rule) Reporter
    ("metric " +:+ quote (selectorString bareSelector) +:+ " with label {"
       +:+ matcherString lm +:+ "} is only sometimes present on "
       +:+ promText (promName (prom c)) (uri trs)
       +:+ " with average life span of "
       +:+ HumanizeDuration (avgLife trsLabel))
    Warning.

(** What one turn of the loop does once the history of the matcher is
    known: steps 5, 6 and 7. *)
Definition matcherHistory (trs : timeRanges) (highChurnLabels : list string)
    (lm : Matcher) (trsLabel : timeRanges) : M unit :=
  if (length (ranges trsLabel) =? 0)%nat
  then appendProblems [matcherAbsent trs highChurnLabels lm trsLabel]
  else if matcherGone trsLabel
  then matcherDisappearance trs lm trsLabel
  else if (1 <? length (ranges trsLabel))%nat
  then appendProblems [matcherSometimes trs lm trsLabel]
  else mret tt.

Definition matcherQuery (lm : Matcher) : string :=
  "count(" +:+ selectorString (labelSelector lm) +:+ ")".

Definition matcherCheck (trs : timeRanges) (highChurnLabels : list string)
    (lm : Matcher) : M unit :=
  if String.eqb (lmName lm) MetricName then mret tt
  else if negb (bool_decide (lmType lm = MatchEqual))
          && negb (bool_decide (lmType lm = MatchRegexp)) then mret tt
  else
    ignored ← isLabelValueIgnored rule selector (lmName lm);
    if ignored : bool then mret tt
    else
      r ← serieTimeRanges (matcherQuery lm) rangeLookback rangeStep;
      match r with
      | inr err =>
          appendProblems
            [queryProblem err (selectorString (labelSelector lm)) rule]
      | inl trsLabel => matcherHistory trs highChurnLabels lm trsLabel
      end.

Fixpoint forM {B : Type} (f : B -> M unit) (l : list B) : M unit :=
  match l with
  | [] => mret tt
  | b :: l' => f b;; forM f l'
  end.

(** **** 8. The bare metric is only sometimes there *)

Definition metricSometimes (trs : timeRanges) : Problem :=
  mkProblem (selectorString bareSelector) (exprLines rule) Reporter
    ("metric " +:+ quote (selectorString bareSelector)
       +:+ " is only sometimes present on "
       +:+ promText (promName (prom c)) (uri trs)
       +:+ " with average life span of " +:+ HumanizeDuration (avgLife trs)
       +:+ " in the last " +:+ sinceDesc (from trs))
    Warning.

Definition metricIntermittent (trs : timeRanges) : M unit :=
  if (1 <? length (ranges trs))%nat
  then appendProblems [metricSometimes trs]
  else mret tt.

(** **** The pipeline *)

(** Lines 217 to 362: what follows the test [len(problems) > 0] that closes
    the loop over the labels. *)
Definition deeperChecks (trs : timeRanges) (highChurnLabels : list string)
    : M unit :=
  if metricGone trs then metricDisappearance trs
  else
    forM (matcherCheck trs highChurnLabels) (LabelMatchers selector);;
    n ← lenProblems;
    if (0 <? n)%nat then mret tt else metricIntermittent trs.

(** Lines 182 to 362: the bare metric has a history [trs]. *)
Definition historyChecks (trs : timeRanges) : M unit :=
  highChurnLabels ← foldM labelCheck labelNames [];
  n ← lenProblems;
  if (0 <? n)%nat then mret tt else deeperChecks trs highChurnLabels.

(** Lines 125 to 362: steps 1 and 2, then the rest. *)
Definition presenceChecks : M unit :=
  r ← instantSeriesCount ("count(" +:+ selectorString selector +:+ ")");
  match r with
  | inr err =>
      appendProblems [queryProblem err (selectorString selector) rule]
  | inl (count, _) =>
      if 0 <? count then mret tt
      else
        r2 ← serieTimeRanges
               ("count(" +:+ selectorString bareSelector +:+ ")")
               rangeLookback rangeStep;
        match r2 with
        | inr err =>
            appendProblems
              [queryProblem err (selectorString bareSelector) rule]
        | inl trs =>
            if (length (ranges trs) =? 0)%nat then neverPresent trs
            else historyChecks trs
        end
  end.

(** The body of the loop of [Check] for a selector that is not in [done]. *)
Definition checkSelector : M unit :=
  disabled ← isDisabled;
  if disabled : bool then mret tt
  else if isAlertsMetric then alertsCheck
  else presenceChecks.

End Selector.

Fixpoint checkSelectors (rule : Rule) (entries : list Entry)
    (selectors : list VectorSelector) (done : gmap string bool) : M unit :=
  match selectors with
  | [] => mret tt
  | selector :: rest =>
      match done !! selectorString selector with
      | Some _ => checkSelectors rule entries rest done
      | None =>
          checkSelector rule entries selector;;
          checkSelectors rule entries rest
            (<[selectorString selector := true]> done)
      end
  end.

(** [Check] returns the final state: [problems] is the returned list and
    [trace] lists the calls that were made. *)
Definition Check (rule : Rule) (entries : list Entry) : St :=
  match SyntaxError rule with
  | Some _ => mkSt [] []
  | None =>
      (checkSelectors rule entries (getSelectors (Query rule)) ∅
         (mkSt [] [])).2
  end.

End SeriesCheck.

(** ** A concrete world

    Stand-ins for the functions of the other packages, used to run the
    check on concrete rules. *)

Module World.

Definition dq : string := String (Ascii.ascii_of_nat 34) EmptyString.

Definition opString (t : MatchType) : string :=
  match t with
  | MatchEqual => "="
  | MatchNotEqual => "!="
  | MatchRegexp => "=~"
  | MatchNotRegexp => "!~"
  end.

Definition printMatcher (lm : Matcher) : string :=
  lmName lm +:+ opString (lmType lm) +:+ dq +:+ lmValue lm +:+ dq.

Fixpoint joinComma (l : list string) : string :=
  match l with
  | [] => ""
  | [s] => s
  | s :: l' => s +:+ "," +:+ joinComma l'
  end.

(** The metric name, then the matchers on other labels between braces. *)
Definition printSelector (s : VectorSelector) : string :=
  match filter (fun lm => negb (String.eqb (lmName lm) MetricName) = true)
               (LabelMatchers s) with
  | [] => Name s
  | ms => Name s +:+ "{" +:+ joinComma (printMatcher <$> ms) +:+ "}"
  end.

Definition digitOf (a : Ascii.ascii) : option Z :=
  let n := Z.of_nat (Ascii.nat_of_ascii a) in
  if (48 <=? n) && (n <=? 57) then Some (n - 48) else None.

Fixpoint parseNumber (s : string) (acc : option Z) : option Z * string :=
  match s with
  | String a s' =>
      match digitOf a with
      | Some d => parseNumber s' (Some (10 * default 0 acc + d))
      | None => (acc, s)
      end
  | EmptyString => (acc, s)
  end.

Definition unitOf (u : string) : option Z :=
  if String.eqb u "s" then Some Second
  else if String.eqb u "m" then Some Minute
  else if String.eqb u "h" then Some Hour
  else if String.eqb u "d" then Some (24 * Hour)
  else None.

(** Durations of one number and one unit, such as [30m] or [2d]. *)
Definition parseDuration (s : string) : Z + string :=
  match parseNumber s None with
  | (Some n, u) =>
      match unitOf u with
      | Some m => inl (n * m)
      | None => inr ("not a valid duration string: " +:+ dq +:+ s +:+ dq)
      end
  | (None, _) => inr ("not a valid duration string: " +:+ dq +:+ s +:+ dq)
  end.

(** The instant at which the clock is read. *)
Definition now : Z := Time.Unix 1700000000.

Definition lib : Lib := {|
  selectorString := printSelector;
  matcherString := printMatcher;
  quote := fun s => dq +:+ s +:+ dq;
  promText := fun name u => "prometheus " +:+ dq +:+ name +:+ dq
                              +:+ " at " +:+ u;
  textAndSeverityFromError := fun err reporter name s =>
    ("couldn't run " +:+ dq +:+ reporter +:+ dq
       +:+ " checks due to prometheus " +:+ dq +:+ name +:+ dq
       +:+ " query error: " +:+ err, s);
  ParseDuration := parseDuration;
  HumanizeDuration := fun d => pretty (Z.quot d Second) +:+ "s";
  timeSince := fun t => Time.Sub now t;
  durationRound := fun d m => m * Z.quot (d + Z.quot m 2) m
|}.

(** Timestamps in milliseconds: [n] samples, [stp] milliseconds apart. *)
Fixpoint samplesFrom (first stp : Z) (n : nat) : list Z :=
  match n with
  | O => []
  | S n' => first :: samplesFrom (first + stp) stp n'
  end.

(** The end of the query window, in seconds and milliseconds of Unix time
    and as an instant. *)
Definition endSec : Z := 1700000000.
Definition endMs : Z := endSec * 1000.
Definition windowEnd : Z := Time.Unix endSec.
Definition windowStart : Z := windowEnd - Hour * 24 * 7.

Definition minuteMs : Z := 60000.
Definition hourMs : Z := 60 * minuteMs.
Definition dayMs : Z := 24 * hourMs.

(** A ranged answer over the window of seven days. *)
Definition answer (samples : list SampleStream) : RangeQueryResult + string :=
  inl (mkRangeQueryResult "http://prom" windowStart windowEnd samples).

(** A series present every five minutes over the whole window. *)
Definition always (ls : gmap string string) : SampleStream :=
  mkSampleStream ls (samplesFrom (endMs - 7 * dayMs) (5 * minuteMs) 2017).

Definition noComments : string -> bool := fun _ => false.
Definition noDirectives : list string -> option Comment := fun _ => None.

Definition vs (name : string) (ms : list Matcher) : PromQLNode :=
  mkPromQLNode
    (VectorSelectorNode name (mkMatcher MatchEqual MetricName name :: ms) 0)
    [].

Definition ruleOf (q : PromQLNode) : Rule :=
  mkRule None q [1] [1; 2] noComments noDirectives.

(** A backend that answers every instant query with no series. *)
Definition nothingNow : list Event -> string -> QueryResult + string :=
  fun _ _ => inl (mkQueryResult "http://prom" []).

Definition emptyState : St := mkSt [] [].

(** *** A rule on an alert and on a metric that comes and goes *)

Definition alertsSelector : VectorSelector :=
  mkVectorSelector "ALERTS"
    [mkMatcher MatchEqual MetricName "ALERTS";
     mkMatcher MatchEqual "alertname" "HighLatency"].

Definition upSelector : VectorSelector :=
  mkVectorSelector "up" [mkMatcher MatchEqual MetricName "up"].

Definition alertsNode : PromQLNode :=
  vs "ALERTS" [mkMatcher MatchEqual "alertname" "HighLatency"].

Definition upNode : PromQLNode := vs "up" [].

Definition alertsAndUp : PromQLNode :=
  mkPromQLNode OtherNode [alertsNode; upNode].

Definition highLatencyRule : list Entry :=
  [mkEntry "rules.yml" (Some "HighLatency") None None].

(** Twelve samples six days before the end of the window and twelve more
    two days before it. *)
Definition twice (ls : gmap string string) : SampleStream :=
  mkSampleStream ls
    (samplesFrom (endMs - 6 * dayMs) (5 * minuteMs) 12
       ++ samplesFrom (endMs - 2 * dayMs) (5 * minuteMs) 12).

Definition promSometimes : FailoverGroup :=
  mkFailoverGroup "prom" nothingNow (fun _ _ _ _ => answer [twice ∅]).

Definition upHistory : timeRanges :=
  mkTimeRanges "http://prom" windowStart windowEnd (Minute * 5)
    (buildRanges (Minute * 5) [twice ∅]).

(** *** A matcher that appeared late and went away *)

Definition jobMatcher : Matcher := mkMatcher MatchEqual "job" "api".

Definition fooJob : VectorSelector :=
  mkVectorSelector "foo" [mkMatcher MatchEqual MetricName "foo"; jobMatcher].

Definition fooJobNode : PromQLNode := vs "foo" [jobMatcher].

(** Present from three days to one day before the end of the window. *)
Definition late : SampleStream :=
  mkSampleStream ∅ (samplesFrom (endMs - 3 * dayMs) (5 * minuteMs) 576).

Definition promLate : FailoverGroup :=
  mkFailoverGroup "prom" nothingNow
    (fun _ query _ _ =>
       if String.eqb query "count(foo)" then answer [always ∅]
       else if String.eqb query
                 ("count(foo{job=" +:+ dq +:+ "api" +:+ dq +:+ "})")
       then answer [late]
       else answer [always {[ "job" := "api" ]}]).

Definition fooHistory : timeRanges :=
  mkTimeRanges "http://prom" windowStart windowEnd (Minute * 5)
    (buildRanges (Minute * 5) [always ∅]).

Definition lateHistory : timeRanges :=
  mkTimeRanges "http://prom" windowStart windowEnd (Minute * 5)
    (buildRanges (Minute * 5) [late]).

(** *** An alert selected by a matcher that is not an equality *)

Definition notFoo : VectorSelector :=
  mkVectorSelector "ALERTS"
    [mkMatcher MatchEqual MetricName "ALERTS";
     mkMatcher MatchNotEqual "alertname" "foo"].

Definition notFooNode : PromQLNode :=
  vs "ALERTS" [mkMatcher MatchNotEqual "alertname" "foo"].

(** *** One interval over more than half of a short window *)

(** A window of 601.5 seconds, with samples at its start and 0.9 seconds
    later. *)
Definition shortAnswer : RangeQueryResult :=
  mkRangeQueryResult "http://prom" (Time.Unix 1700000000)
    (Time.Unix 1700000000 + 601500 * Millisecond)
    [mkSampleStream {[ "job" := "api" ]}
       [1700000000000; 1700000000900]].

Definition promShort : FailoverGroup :=
  mkFailoverGroup "prom" nothingNow (fun _ _ _ _ => inl shortAnswer).


(** *** A metric gone for an hour, under a directive that does not parse *)

Definition fooSelector : VectorSelector :=
  mkVectorSelector "foo" [mkMatcher MatchEqual MetricName "foo"].

Definition fooNode : PromQLNode := vs "foo" [].

(** Present from the start of the window until one hour before its end. *)
Definition untilLastHour : SampleStream :=
  mkSampleStream ∅ (samplesFrom (endMs - 7 * dayMs) (5 * minuteMs) 2004).

(** Present from the start of the window until one day before its end. *)
Definition untilLastDay : SampleStream :=
  mkSampleStream ∅ (samplesFrom (endMs - 7 * dayMs) (5 * minuteMs) 1728).

Definition promLastHour : FailoverGroup :=
  mkFailoverGroup "prom" nothingNow (fun _ _ _ _ => answer [untilLastHour]).

Definition promLastDay : FailoverGroup :=
  mkFailoverGroup "prom" nothingNow (fun _ _ _ _ => answer [untilLastDay]).

Definition lastHourHistory : timeRanges :=
  mkTimeRanges "http://prom" windowStart windowEnd (Minute * 5)
    (buildRanges (Minute * 5) [untilLastHour]).

Definition lastDayHistory : timeRanges :=
  mkTimeRanges "http://prom" windowStart windowEnd (Minute * 5)
    (buildRanges (Minute * 5) [untilLastDay]).

Definition soonDirective : Comment :=
  mkComment "rule/set promql/series min-age soon" "soon".

(** The rule on [foo] with the directive [min-age soon] of the reporter. *)
Definition fooSoon : Rule :=
  mkRule None fooNode [1] [1; 2] noComments
    (fun key =>
       if bool_decide (key = ["rule/set"; "promql/series"; "min-age"])
       then Some soonDirective else None).

(** *** A backend that fails on one matcher *)

Definition aMatcher : Matcher := mkMatcher MatchEqual "a" "1".
Definition bMatcher : Matcher := mkMatcher MatchEqual "b" "2".

Definition fooAB : VectorSelector :=
  mkVectorSelector "foo"
    [mkMatcher MatchEqual MetricName "foo"; aMatcher; bMatcher].

Definition fooABNode : PromQLNode := vs "foo" [aMatcher; bMatcher].

Definition promFailing : FailoverGroup :=
  mkFailoverGroup "prom" nothingNow
    (fun _ query _ _ =>
       if String.eqb query "count(foo)" then answer [always ∅]
       else if String.eqb query
                 ("count(foo{a=" +:+ dq +:+ "1" +:+ dq +:+ "})")
       then inr "connection refused"
       else if String.eqb query
                 ("count(foo{b=" +:+ dq +:+ "2" +:+ dq +:+ "})")
       then answer []
       else answer [always {[ "a" := "1"; "b" := "2" ]}]).

Definition noHistory : timeRanges :=
  mkTimeRanges "http://prom" windowStart windowEnd (Minute * 5) [].

(** A backend whose every query fails. *)
Definition promDown : FailoverGroup :=
  mkFailoverGroup "prom" (fun _ _ => inr "connection refused")
    (fun _ _ _ _ => inr "connection refused").

(** *** A rule that does not parse *)

Definition brokenRule : Rule :=
  mkRule (Some "unexpected end of input") (mkPromQLNode OtherNode [])
    [1] [1; 2] noComments noDirectives.

End World.

(** ** Vocabulary of the properties *)

(** Two half-open intervals share an instant. *)
Definition overlap (r1 r2 : timeRange) : Prop :=
  start r1 < end_ r2 ∧ start r2 < end_ r1.

(** The samples of a ranged answer in the order in which [serieTimeRanges]
    visits them, each with the label set of its series. *)
Definition flatSamples (samples : list SampleStream)
    : list (gmap string string * Z) :=
  s ← samples; (fun v => (Metric s, TimestampTime v)) <$> Values s.

(** The samples of every label set come in the order of their timestamps. *)
Definition timeOrdered (l : list (gmap string string * Z)) : Prop :=
  ∀ (i j : nat) p q, (i < j)%nat → l !! i = Some p → l !! j = Some q →
    p.1 = q.1 → p.2 ≤ q.2.

(** Every range ends before the later ranges of its label set start. *)
Fixpoint separated (rs : list timeRange) : Prop :=
  match rs with
  | [] => True
  | r :: rs' =>
      Forall (fun r' => labels r' = labels r → end_ r < start r') rs'
      ∧ separated rs'
  end.

(** No range of the label set [ls] starts after [t] or ends after
    [t + stp]. *)
Definition bounded (stp : Z) (ls : gmap string string) (t : Z)
    (rs : list timeRange) : Prop :=
  Forall (fun r => labels r = ls → start r ≤ t ∧ end_ r ≤ t + stp) rs.

(** *** Resolution of [min-age], in the words of the specification *)

Section MinAgeVocabulary.
Context `{!Lib}.

Definition globalKey : list string :=
  ["rule/set"; SeriesCheckName; "min-age"].

Definition bareKey (selector : VectorSelector) : list string :=
  ["rule/set";
   SeriesCheckName +:+ "(" +:+ selectorString (stripLabels selector) +:+ ")";
   "min-age"].

Definition selectorKey (selector : VectorSelector) : list string :=
  ["rule/set"; SeriesCheckName +:+ "(" +:+ selectorString selector +:+ ")";
   "min-age"].

(** The duration of a directive that is present and parses. *)
Definition directiveValue (o : option Comment) : option Z :=
  cmt ← o;
  match ParseDuration (cmtValue cmt) with
  | inl d => Some d
  | inr _ => None
  end.

(** The finding of a directive that is present and does not parse. *)
Definition directiveWarning (rule : Rule) (o : option Comment)
    : list Problem :=
  match o with
  | Some cmt =>
      match ParseDuration (cmtValue cmt) with
      | inl _ => []
      | inr err =>
          [mkProblem (cmtString cmt) (LineRange rule) SeriesCheckName
             ("failed to parse pint comment as duration: " +:+ err) Warning]
      end
  | None => []
  end.

(** The most specific directive with a valid duration wins; two hours when
    there is none. *)
Definition resolvedMinAge (rule : Rule) (selector : VectorSelector) : Z :=
  match directiveValue (GetComment rule (selectorKey selector)) with
  | Some d => d
  | None =>
      match directiveValue (GetComment rule (bareKey selector)) with
      | Some d => d
      | None =>
          match directiveValue (GetComment rule globalKey) with
          | Some d => d
          | None => 2 * Hour
          end
      end
  end.

(** The directive under [key] is present and its value is not a duration. *)
Definition failsToParse (rule : Rule) (key : list string) : bool :=
  match GetComment rule key with
  | Some cmt =>
      match ParseDuration (cmtValue cmt) with
      | inl _ => false
      | inr _ => true
      end
  | None => false
  end.

Definition minAgeWarnings (rule : Rule) (selector : VectorSelector)
    : list Problem :=
  directiveWarning rule (GetComment rule globalKey)
  ++ directiveWarning rule (GetComment rule (bareKey selector))
  ++ directiveWarning rule (GetComment rule (selectorKey selector)).

End MinAgeVocabulary.

(** *** The alert name that is cross-checked *)

(** A matcher on [alertname] that is an equality or an inequality, that is,
    not one of the two regular-expression kinds. *)
Definition literalAlertname (lm : Matcher) : Prop :=
  lmName lm = "alertname"
  ∧ (lmType lm = MatchEqual ∨ lmType lm = MatchNotEqual).

Global Instance literalAlertname_dec lm : Decision (literalAlertname lm).
Proof. unfold literalAlertname. apply _. Defined.

(** The value of the last such matcher of the selector; empty when there is
    none. *)
Definition crossCheckedName (selector : VectorSelector) : string :=
  default "" (last (lmValue <$> filter literalAlertname
                                  (LabelMatchers selector))).

(** Some entry is an alerting rule named [an] that parsed. *)
Definition alertingRuleNamed (an : string) (entries : list Entry) : Prop :=
  ∃ entry, entry ∈ entries ∧ AlertingRule entry = Some an
           ∧ RuleError entry = None.

Definition isQuery (e : Event) : bool :=
  match e with
  | EvQuery _ | EvRangeQuery _ _ _ => true
  | _ => false
  end.

(** The text of the directive that disables the check of a selector. *)
Definition disableComment (printed : string) : string :=
  "disable " +:+ SeriesCheckName +:+ "(" +:+ printed +:+ ")".

(** The history that [serieTimeRanges] builds from an answer to a query of
    [Check]. *)
Definition historyOf (qr : RangeQueryResult) : timeRanges :=
  mkTimeRanges (rqURI qr) (rqStart qr) (rqEnd qr) rangeStep
    (buildRanges rangeStep (rqSamples qr)).

(** *** The queries of one selector *)

Section QueryVocabulary.
Context `{!Lib}.

(** The instant query of step 1 and the ranged query of step 2. *)
Definition instantQuery (selector : VectorSelector) : string :=
  "count(" +:+ selectorString selector +:+ ")".

Definition bareQuery (selector : VectorSelector) : string :=
  "count(" +:+ selectorString (stripLabels selector) +:+ ")".

(** The number of series that [instantSeriesCount] reads in an answer. *)
Definition seriesCount (qr : QueryResult) : Z :=
  fold_left (fun series v => wrap64 (series + v)) (Series qr) 0.

(** What [isLabelValueIgnored] answers for a label, and the lookups it
    makes on the way. *)
Definition ignoredBy (rule : Rule) (selector : VectorSelector)
    (labelName : string) : bool :=
  (isLabelValueIgnored rule selector labelName (mkSt [] [])).1.

Definition ignoreLookups (rule : Rule) (selector : VectorSelector)
    (labelName : string) : list Event :=
  trace (isLabelValueIgnored rule selector labelName (mkSt [] [])).2.

End QueryVocabulary.

(** *** Findings that differ by the churn flags only *)

Section ChurnVocabulary.
Context `{!Lib}.

(** Two findings are the same, or they are the findings of step 5 for the
    same matcher and the same history under two lists of flagged labels. *)
Definition sameButAbsent (c : SeriesCheck) (rule : Rule)
    (selector : VectorSelector) (trs : timeRanges) (hc hc' : list string)
    (p p' : Problem) : Prop :=
  p = p'
  ∨ ∃ lm trsLabel,
      ranges trsLabel = []
      ∧ p = matcherAbsent c rule selector trs hc lm trsLabel
      ∧ p' = matcherAbsent c rule selector trs hc' lm trsLabel.

(** Two states of the check after the same calls, with findings that differ
    at step 5 only. *)
Definition sameFindings (c : SeriesCheck) (rule : Rule)
    (selector : VectorSelector) (trs : timeRanges) (hc hc' : list string)
    (st st' : St) : Prop :=
  trace st = trace st'
  ∧ Forall2 (sameButAbsent c rule selector trs hc hc')
      (problems st) (problems st').

End ChurnVocabulary.

(** Unfolds the operations of the state monad. *)
Ltac unfoldM :=
  unfold ruleHasComment, ruleGetComment, Query_, RangeQuery_, appendProblems,
    lenProblems, emit, getTrace, mbind, M_bind, mret, M_ret in *.

(** *** Vocabulary of the further properties *)

(** The expression with every time offset set to zero. *)
Fixpoint dropOffsets (n : PromQLNode) : PromQLNode :=
  match n with
  | mkPromQLNode node children =>
      mkPromQLNode
        match node with
        | VectorSelectorNode name matchers _ =>
            VectorSelectorNode name matchers 0
        | OtherNode => OtherNode
        end
        ((fix walk (cs : list PromQLNode) : list PromQLNode :=
            match cs with
            | [] => []
            | child :: cs' => dropOffsets child :: walk cs'
            end) children)
  end.

(** The rule with another query and everything else unchanged. *)
Definition withQuery (rule : Rule) (q : PromQLNode) : Rule :=
  mkRule (SyntaxError rule) q (exprLines rule) (LineRange rule)
    (HasComment rule) (GetComment rule).

(** A matcher on the name of the metric. *)
Definition nameMatcher (lm : Matcher) : Prop := lmName lm = MetricName.

Global Instance nameMatcher_dec lm : Decision (nameMatcher lm).
Proof. unfold nameMatcher. apply _. Defined.

(** Some entry is a recording rule named [name] that parsed. *)
Definition recordingRuleNamed (name : string) (entries : list Entry) : Prop :=
  ∃ entry, entry ∈ entries ∧ RecordingRule entry = Some name
           ∧ RuleError entry = None.

(** The second state has the findings and the calls of the first, in the
    same order, possibly followed by more. *)
Definition extends (st st' : St) : Prop :=
  ∃ ps evs, st' = mkSt (problems st ++ ps) (trace st ++ evs).

(** A computation that only ever adds findings and calls. *)
Definition grows {A : Type} (m : M A) : Prop := ∀ st, extends st (m st).2.


Section IgnoreVocabulary.
Context `{!Lib}.

(** The three directives that switch off the check of a label, in the order
    in which they are looked up. *)
Definition ignoreKeys (selector : VectorSelector) (labelName : string)
    : list string :=
  [ "rule/set " +:+ SeriesCheckName +:+ " ignore/label-value " +:+ labelName;
    "rule/set " +:+ SeriesCheckName +:+ "("
      +:+ selectorString (stripLabels selector)
      +:+ ") ignore/label-value " +:+ labelName;
    "rule/set " +:+ SeriesCheckName +:+ "(" +:+ selectorString selector
      +:+ ") ignore/label-value " +:+ labelName ].

End IgnoreVocabulary.

(** The keys up to the first one that the rule carries, that one included. *)
Fixpoint untilFound (rule : Rule) (keys : list string) : list string :=
  match keys with
  | [] => []
  | k :: keys' => k :: if HasComment rule k then [] else untilFound rule keys'
  end.

(** Every range starts at a sample seen so far, ends one step after such a
    sample and lasts one step at least; there are no more ranges than
    samples, and some range as soon as there is a sample. *)
Definition builtFrom (stp : Z) (seen : list (gmap string string * Z))
    (rs : list timeRange) : Prop :=
  Forall (fun r => (labels r, start r) ∈ seen
                   ∧ (labels r, end_ r - stp) ∈ seen
                   ∧ start r + stp ≤ end_ r) rs
  ∧ (length rs ≤ length seen)%nat
  ∧ (seen ≠ [] → rs ≠ []).

(** The samples seen so far each lie in a range of their label set. *)
Definition covered (seen : list (gmap string string * Z))
    (rs : list timeRange) : Prop :=
  ∀ p, p ∈ seen →
    ∃ r, r ∈ rs ∧ labels r = p.1 ∧ start r ≤ p.2 < end_ r.

Definition isRangeQuery (e : Event) : bool :=
  match e with
  | EvRangeQuery _ _ _ => true
  | _ => false
  end.

(** The state holds no finding and its trace no ranged query. *)
Definition quiet (st : St) : Prop :=
  problems st = [] ∧ Forall (fun e => isRangeQuery e = false) (trace st).

(** *** More concrete cases *)

Module Cases.
Import World.


(** The rule on [foo{job="api"}] that ignores the values of [job]. *)
Definition ignoringRule : Rule :=
  mkRule None fooJobNode [1] [1; 2]
    (fun s => String.eqb s "rule/set promql/series ignore/label-value job")
    noDirectives.

(** A backend that knows one series right now. *)
Definition promPresent : FailoverGroup :=
  mkFailoverGroup "prom" (fun _ _ => inl (mkQueryResult "http://prom" [1]))
    (fun _ _ _ _ => inr "not asked").

(** A backend that never saw anything. *)
Definition promEmpty : FailoverGroup :=
  mkFailoverGroup "prom" nothingNow (fun _ _ _ _ => answer []).

Definition fooRecorded : list Entry :=
  [mkEntry "rules.yml" None (Some "foo") None].

(** [up] twice in one expression. *)
Definition upTwice : PromQLNode := mkPromQLNode OtherNode [upNode; upNode].

(** [up offset 5m], as a node. *)
Definition upOffset : PromQLNode :=
  mkPromQLNode
    (VectorSelectorNode "up" [mkMatcher MatchEqual MetricName "up"]
       (5 * Minute)) [].

(** Two intervals of two label sets. *)
Definition twoSeries : list SampleStream :=
  [mkSampleStream {[ "job" := "a" ]}
     (samplesFrom (endMs - dayMs) (5 * minuteMs) 3);
   mkSampleStream {[ "job" := "b" ]}
     (samplesFrom (endMs - hourMs) (5 * minuteMs) 3)].

Definition twoHistory : timeRanges :=
  mkTimeRanges "http://prom" windowStart windowEnd (Minute * 5)
    (buildRanges (Minute * 5) twoSeries).

(** Present from three days before the end of the window until its end. *)
Definition stillThere : SampleStream :=
  mkSampleStream ∅ (samplesFrom (endMs - 3 * dayMs) (5 * minuteMs) 865).

Definition stillThereHistory : timeRanges :=
  mkTimeRanges "http://prom" windowStart windowEnd (Minute * 5)
    (buildRanges (Minute * 5) [stillThere]).

End Cases.

(** * Properties *)

(** ** Interval coalescing *)

Lemma covers_spec ls ts r :
  covers ls ts r = true ↔ labels r = ls ∧ start r ≤ ts ≤ end_ r.
Proof.
  unfold covers, Time.Before, Time.After.
  rewrite !andb_true_iff, !negb_true_iff, bool_decide_eq_true, !Z.ltb_ge.
  tauto.
Qed.

Lemma covers_false ls ts r :
  covers ls ts r = false ↔ ¬ (labels r = ls ∧ start r ≤ ts ≤ end_ r).
Proof. rewrite <- covers_spec. destruct (covers ls ts r); naive_solver. Qed.

(** [extendFirst] finds the first covering range and moves its end. *)
Lemma extendFirst_Some stp ls ts rs rs' :
  extendFirst stp ls ts rs = Some rs' →
  ∃ (i : nat) r, rs !! i = Some r ∧ covers ls ts r = true
    ∧ (∀ (j : nat) r', (j < i)%nat → rs !! j = Some r' →
         covers ls ts r' = false)
    ∧ rs' = <[i := mkTimeRange (labels r) (start r) (ts + stp)]> rs.
Proof.
  revert rs'. induction rs as [|r rs IH]; intros rs' E; simpl in E.
  - discriminate.
  - destruct (covers ls ts r) eqn:C.
    + injection E as <-. exists 0%nat, r. split; [done|]. split; [done|].
      split; [intros j r' Hj; lia | done].
    + destruct (extendFirst stp ls ts rs) as [rs''|] eqn:E'; [|discriminate].
      simpl in E. injection E as <-.
      destruct (IH rs'' eq_refl) as (i & r0 & Hi & Hc & Hfirst & ->).
      exists (S i), r0. split; [done|]. split; [done|]. split; [|done].
      intros [|j] r' Hj Hr'; simpl in Hr'.
      * by injection Hr' as <-.
      * apply (Hfirst j); [lia | done].
Qed.

Lemma extendFirst_None stp ls ts rs :
  extendFirst stp ls ts rs = None ↔ ∀ r, r ∈ rs → covers ls ts r = false.
Proof.
  induction rs as [|r rs IH]; simpl.
  - split; [intros _ r Hr; by apply not_elem_of_nil in Hr | done].
  - destruct (covers ls ts r) eqn:C.
    + split; [discriminate|]. intros Hall.
      rewrite (Hall r) in C; [discriminate | apply list_elem_of_here].
    + destruct (extendFirst stp ls ts rs) eqn:E; simpl.
      * split; [discriminate|]. intros Hall.
        assert (Some l = None) as Habs; [|discriminate].
        apply IH. intros r' Hr'. apply Hall. by apply list_elem_of_further.
      * split; [|done]. intros _ r' Hr'.
        apply elem_of_cons in Hr' as [->|Hr']; [done|].
        by apply (proj1 IH).
Qed.

Lemma separated_app rs r :
  separated rs →
  Forall (fun r' => labels r = labels r' → end_ r' < start r) rs →
  separated (rs ++ [r]).
Proof.
  induction rs as [|r0 rs IH]; simpl; intros Hs Hall.
  - split; [constructor | done].
  - destruct Hs as [H0 Hs]. inversion Hall as [|? ? Hr0 Hrs]; subst.
    split; [|by apply IH].
    apply Forall_app. split; [done|].
    constructor; [|constructor]. intros Heq. by apply Hr0.
Qed.

Lemma separated_lookup rs (i j : nat) r1 r2 :
  separated rs → (i < j)%nat → rs !! i = Some r1 → rs !! j = Some r2 →
  labels r1 = labels r2 → end_ r1 < start r2.
Proof.
  revert i j. induction rs as [|r rs IH]; intros i j Hs Hij H1 H2 Hl.
  - done.
  - destruct Hs as [H0 Hs]. destruct j as [|j]; [lia|]. simpl in H2.
    destruct i as [|i]; simpl in H1.
    + injection H1 as ->. rewrite Forall_forall in H0.
      apply H0; [by eapply list_elem_of_lookup_2 | done].
    + apply (IH i j); [done | lia | done | done | done].
Qed.

Lemma extendFirst_separated stp ls ts rs rs' :
  separated rs → bounded stp ls ts rs →
  extendFirst stp ls ts rs = Some rs' → separated rs'.
Proof.
  revert rs'. induction rs as [|r rs IH]; intros rs' Hs Hb E; simpl in E.
  - discriminate.
  - destruct Hs as [H0 Hs]. inversion Hb as [|? ? Hr Hrs]; subst.
    destruct (covers ls ts r) eqn:C.
    + injection E as <-. simpl. split; [|done].
      apply covers_spec in C as (Hl & _ & Hend).
      rewrite Forall_forall in H0, Hrs. apply Forall_forall. intros x Hx Hlx.
      assert (labels x = ls) as Hxl by congruence.
      specialize (H0 x Hx Hlx). destruct (Hrs x Hx Hxl). lia.
    + destruct (extendFirst stp ls ts rs) as [rs''|] eqn:E'; [|discriminate].
      simpl in E. injection E as <-. simpl. split; [|by apply IH].
      destruct (extendFirst_Some _ _ _ _ _ E') as (i & r0 & Hi & _ & _ & ->).
      apply Forall_insert; [done|]. simpl.
      rewrite Forall_lookup in H0. apply (H0 i r0 Hi).
Qed.

Lemma addSample_separated stp ls ts rs :
  separated rs → bounded stp ls ts rs → separated (addSample stp ls rs ts).
Proof.
  intros Hs Hb. unfold addSample.
  destruct (extendFirst stp ls ts rs) as [rs'|] eqn:E.
  - by eapply extendFirst_separated.
  - apply separated_app; [done|]. simpl.
    rewrite extendFirst_None in E. unfold bounded in Hb.
    rewrite Forall_forall in Hb. apply Forall_forall. intros x Hx Hl.
    destruct (Hb x Hx (eq_sym Hl)) as [Hstart _].
    specialize (E x Hx). rewrite covers_false in E.
    destruct (decide (ts ≤ end_ x)); [|lia].
    exfalso. apply E. split; [done | lia].
Qed.

Lemma addSample_bounded stp ls ts rs ls' t' :
  (ls' = ls → ts ≤ t') → bounded stp ls' t' rs →
  bounded stp ls' t' (addSample stp ls rs ts).
Proof.
  intros Hord Hb. unfold addSample, bounded in *.
  destruct (extendFirst stp ls ts rs) as [rs'|] eqn:E.
  - destruct (extendFirst_Some _ _ _ _ _ E) as (i & r0 & Hi & Hc & _ & ->).
    apply Forall_insert; [done|]. simpl. intros Hl.
    apply covers_spec in Hc as (Hl0 & _).
    rewrite Forall_lookup in Hb. destruct (Hb i r0 Hi Hl) as [Hs _].
    assert (ts ≤ t') by (apply Hord; congruence). lia.
  - apply Forall_app. split; [done|].
    constructor; [|constructor]. simpl. intros Hl.
    assert (ts ≤ t') by (apply Hord; congruence). unfold Time.Add. lia.
Qed.

Lemma timeOrdered_cons p l :
  timeOrdered (p :: l) →
  timeOrdered l ∧ ∀ q, q ∈ l → p.1 = q.1 → p.2 ≤ q.2.
Proof.
  intros H. split.
  - intros i j a b Hij Ha Hb. apply (H (S i) (S j)); [lia | done | done].
  - intros q Hq. apply list_elem_of_lookup in Hq as [j Hj].
    apply (H 0%nat (S j)); [lia | done | done].
Qed.

Lemma fold_addSample_separated stp l :
  ∀ rs, timeOrdered l → separated rs →
    (∀ p, p ∈ l → bounded stp p.1 p.2 rs) →
    separated (fold_left (fun rs p => addSample stp p.1 rs p.2) l rs).
Proof.
  induction l as [|p l IH]; intros rs Ho Hs Hb; simpl; [done|].
  apply timeOrdered_cons in Ho as [Ho Hp].
  apply IH; [done | |].
  - apply addSample_separated; [done|]. apply Hb, list_elem_of_here.
  - intros q Hq. apply addSample_bounded.
    + intros Heq. by apply Hp.
    + by apply Hb, list_elem_of_further.
Qed.

Lemma fold_left_fmap_pairs stp ls (vs : list Z) rs :
  fold_left (addSample stp ls) (TimestampTime <$> vs) rs
  = fold_left (fun rs p => addSample stp p.1 rs p.2)
      ((fun v => (ls, TimestampTime v)) <$> vs) rs.
Proof. revert rs. induction vs as [|v vs IH]; intros rs; simpl; [done|]. apply IH. Qed.

Lemma buildRanges_flat stp samples :
  buildRanges stp samples
  = fold_left (fun rs p => addSample stp p.1 rs p.2) (flatSamples samples) [].
Proof.
  unfold buildRanges, flatSamples. generalize (@nil timeRange).
  induction samples as [|s ss IH]; intros rs; simpl; [done|].
  rewrite fold_left_app, IH. f_equal. apply fold_left_fmap_pairs.
Qed.

Lemma wrap64_id z : minInt64 ≤ z ≤ maxInt64 → wrap64 z = z.
Proof.
  unfold minInt64, maxInt64, wrap64. intros Hz.
  rewrite Z.mod_small; lia.
Qed.

Lemma addSample_extends stp ls ts rs (i : nat) r :
  rs !! i = Some r → labels r = ls → start r ≤ ts ≤ end_ r →
  (∀ (j : nat) r', (j < i)%nat → rs !! j = Some r' →
     ¬ (labels r' = ls ∧ start r' ≤ ts ≤ end_ r')) →
  addSample stp ls rs ts = <[i := mkTimeRange ls (start r) (ts + stp)]> rs.
Proof.
  intros Hi Hl Hin Hfirst. unfold addSample.
  destruct (extendFirst stp ls ts rs) as [rs'|] eqn:E.
  - destruct (extendFirst_Some _ _ _ _ _ E) as (k & r0 & Hk & Hc & Hk' & ->).
    apply covers_spec in Hc as Hc'.
    destruct (Nat.lt_trichotomy k i) as [Hlt|[->|Hgt]].
    + exfalso. by apply (Hfirst k r0 Hlt Hk).
    + rewrite Hi in Hk. injection Hk as <-. by rewrite Hl.
    + exfalso. specialize (Hk' i r Hgt Hi). apply covers_false in Hk'.
      by apply Hk'.
  - exfalso. rewrite extendFirst_None in E.
    assert (covers ls ts r = false) as Hc
      by (apply E; by eapply list_elem_of_lookup_2).
    apply covers_false in Hc. by apply Hc.
Qed.

Lemma addSample_opens stp ls ts rs :
  (∀ r, r ∈ rs → ¬ (labels r = ls ∧ start r ≤ ts ≤ end_ r)) →
  addSample stp ls rs ts = rs ++ [mkTimeRange ls ts (ts + stp)].
Proof.
  intros Hnone. unfold addSample.
  assert (extendFirst stp ls ts rs = None) as ->; [|done].
  apply extendFirst_None. intros r Hr. apply covers_false. by apply Hnone.
Qed.

Lemma TimestampTime_add t s :
  TimestampTime (t + s) = TimestampTime t + s * Millisecond.
Proof. unfold TimestampTime. lia. Qed.

Lemma buildRanges_no_overlap stp samples (i j : nat) r1 r2 :
  timeOrdered (flatSamples samples) → i ≠ j →
  buildRanges stp samples !! i = Some r1 →
  buildRanges stp samples !! j = Some r2 →
  labels r1 = labels r2 → ¬ overlap r1 r2.
Proof.
  intros Ho Hij H1 H2 Hl [Ha Hb].
  assert (separated (buildRanges stp samples)) as Hs.
  { rewrite buildRanges_flat. apply fold_addSample_separated; [done..|].
    intros p _. apply Forall_nil_2. }
  destruct (Nat.lt_trichotomy i j) as [Hlt|[->|Hgt]]; [|done|].
  - pose proof (separated_lookup _ _ _ _ _ Hs Hlt H1 H2 Hl). lia.
  - pose proof (separated_lookup _ _ _ _ _ Hs Hgt H2 H1 (eq_sym Hl)). lia.
Qed.

(** C4.  [serieTimeRanges] coalesces the samples of an answer: a sample at
    [ts] moves to [ts + step] the end of the first interval of its label set
    with [start <= ts <= end], and opens the interval [ts, ts + step) when
    there is none; samples at [t], [t + step] and [t + 2 step] of one label
    set give the one interval [t, t + 3 step) and a further sample at
    [t + 5 step] opens a second one; and when the samples of every label set
    come in the order of their timestamps, no two intervals of the result
    with the same label set overlap. *)
Theorem serieTimeRanges_coalesces :
  (∀ stp ls ts rs,
     (∀ (i : nat) r, rs !! i = Some r → labels r = ls →
        start r ≤ ts ≤ end_ r →
        (∀ (j : nat) r', (j < i)%nat → rs !! j = Some r' →
           ¬ (labels r' = ls ∧ start r' ≤ ts ≤ end_ r')) →
        addSample stp ls rs ts
        = <[i := mkTimeRange ls (start r) (ts + stp)]> rs)
     ∧ ((∀ r, r ∈ rs → ¬ (labels r = ls ∧ start r ≤ ts ≤ end_ r)) →
        addSample stp ls rs ts = rs ++ [mkTimeRange ls ts (ts + stp)]))
  ∧ (∀ ls t s, 0 < s →
       buildRanges (s * Millisecond) [mkSampleStream ls [t; t + s; t + 2 * s]]
       = [mkTimeRange ls (TimestampTime t) (TimestampTime (t + 3 * s))]
       ∧ buildRanges (s * Millisecond)
           [mkSampleStream ls [t; t + s; t + 2 * s; t + 5 * s]]
         = [mkTimeRange ls (TimestampTime t) (TimestampTime (t + 3 * s));
            mkTimeRange ls (TimestampTime (t + 5 * s))
              (TimestampTime (t + 6 * s))])
  ∧ (∀ c query lookback stp st qr,
       promRangeQuery (prom c) (trace st) query lookback stp = inl qr →
       timeOrdered (flatSamples (rqSamples qr)) →
       ∃ tr, (serieTimeRanges c query lookback stp st).1 = inl tr
         ∧ from tr = rqStart qr ∧ until tr = rqEnd qr
         ∧ ranges tr = buildRanges stp (rqSamples qr)
         ∧ ∀ (i j : nat) r1 r2, i ≠ j →
             ranges tr !! i = Some r1 → ranges tr !! j = Some r2 →
             labels r1 = labels r2 → ¬ overlap r1 r2).
Proof.
  split; [|split].
  - intros stp ls ts rs. split.
    + intros i r. apply addSample_extends.
    + apply addSample_opens.
  - intros ls t s Hs.
    assert (∀ a b, 0 ≤ b ≤ a →
      addSample (s * Millisecond) ls
        [mkTimeRange ls (TimestampTime t) (TimestampTime (t + a))]
        (TimestampTime (t + b))
      = [mkTimeRange ls (TimestampTime t) (TimestampTime (t + (b + s)))])
      as Hext.
    { intros a b Hab.
      rewrite (addSample_extends _ _ _ _ 0%nat
                 (mkTimeRange ls (TimestampTime t) (TimestampTime (t + a))));
        simpl; [|done|done| |intros j r' Hj; lia].
      - rewrite !TimestampTime_add. do 2 f_equal. lia.
      - rewrite !TimestampTime_add. unfold Millisecond. lia. }
    assert (addSample (s * Millisecond) ls [] (TimestampTime t)
            = [mkTimeRange ls (TimestampTime t) (TimestampTime (t + s))])
      as Hfirst.
    { rewrite addSample_opens; [|intros r Hr; by apply not_elem_of_nil in Hr].
      simpl. by rewrite TimestampTime_add. }
    unfold buildRanges, addSeries. simpl. rewrite Hfirst.
    rewrite (Hext s s) by lia. rewrite (Hext (s + s) (2 * s)) by lia.
    replace (2 * s + s) with (3 * s) by lia. split; [done|].
    rewrite addSample_opens.
    + simpl. do 3 f_equal. rewrite !TimestampTime_add. lia.
    + intros r Hr. apply list_elem_of_singleton in Hr as ->. simpl.
      rewrite !TimestampTime_add. unfold Millisecond. lia.
  - intros c query lookback stp st qr Hq Ho.
    unfold serieTimeRanges, RangeQuery_, getTrace, emit, mbind, M_bind,
      mret, M_ret. simpl. rewrite Hq. simpl.
    eexists. split; [done|]. simpl. repeat split.
    intros i j r1 r2. by apply buildRanges_no_overlap.
Qed.

(** ** Resolution of [min-age] *)

Section MinAge.
Context `{!Lib}.

Lemma getMinAge_run rule selector st :
  getMinAge rule selector st
  = ((resolvedMinAge rule selector, minAgeWarnings rule selector),
     mkSt (problems st)
       (trace st ++ [EvGetComment globalKey; EvGetComment (bareKey selector);
                     EvGetComment (selectorKey selector)])).
Proof.
  unfold getMinAge, minAgeKeys, resolvedMinAge, minAgeWarnings, foldM,
    minAgeStep, directiveValue, directiveWarning, globalKey, bareKey,
    selectorKey, Reporter.
  unfoldM. simpl.
  repeat match goal with
         | |- context [GetComment rule ?k] =>
             destruct (GetComment rule k) as [?cmt|]; simpl
         end;
    repeat match goal with
           | |- context [ParseDuration ?v] => destruct (ParseDuration v); simpl
           end;
    rewrite <- ?app_assoc; reflexivity.
Qed.

Lemma minAgeWarnings_Warning rule selector p :
  p ∈ minAgeWarnings rule selector → Severity_ p = Warning.
Proof.
  unfold minAgeWarnings, directiveWarning. intros Hp.
  repeat (apply elem_of_app in Hp as [Hp|Hp]);
    repeat match type of Hp with
           | context [match ?o with Some _ => _ | None => _ end] =>
               destruct o
           | context [ParseDuration ?v] => destruct (ParseDuration v)
           end;
    try (by apply not_elem_of_nil in Hp);
    by apply list_elem_of_singleton in Hp as ->.
Qed.


End MinAge.

(** ** Unparsable expressions *)

Section SyntaxError.
Context `{!Lib}.
Variable c : SeriesCheck.

(** C10.  When the expression of the rule carries a syntax error, [Check]
    returns no finding and makes no call at all: no query reaches the
    backend and no directive is looked up. *)
Theorem Check_syntax_error rule entries :
  SyntaxError rule ≠ None →
  problems (Check c rule entries) = [] ∧ trace (Check c rule entries) = [].
Proof.
  intros Herr. unfold Check. by destruct (SyntaxError rule).
Qed.

End SyntaxError.

(** ** Findings of earlier selectors *)

Section Accumulator.
Context `{!Lib}.
Variable c : SeriesCheck.
Variable rule : Rule.
Variable selector : VectorSelector.

Lemma labelCheck_grows hc name st :
  ∃ ps, problems (labelCheck c rule selector hc name st).2
        = problems st ++ ps.
Proof.
  unfold labelCheck, serieTimeRanges. unfoldM. simpl.
  destruct (promRangeQuery _ _ _ _ _) as [qr|err]; simpl.
  - match goal with
    | |- context [(length ?l =? 0)%nat] => destruct (length l =? 0)%nat
    end;
      match goal with
      | |- context [highChurn ?n ?t] => destruct (highChurn n t)
      end; simpl; eauto using app_nil_r.
    all: exists []; by rewrite app_nil_r.
  - eauto.
Qed.

Lemma labelLoop_grows names :
  ∀ hc st, ∃ ps,
    problems (foldM (labelCheck c rule selector) names hc st).2
    = problems st ++ ps.
Proof.
  induction names as [|name names IH]; intros hc st.
  - exists []. simpl. by rewrite app_nil_r.
  - cbn [foldM]. unfold mbind, M_bind.
    destruct (labelCheck_grows hc name st) as [ps Hps].
    destruct (labelCheck c rule selector hc name st) as [hc1 st1].
    destruct (IH hc1 st1) as [ps' Hps']. exists (ps ++ ps').
    simpl in Hps. by rewrite Hps', Hps, app_assoc.
Qed.

(** With a finding already in the accumulator, nothing is run after the
    loop over the labels. *)
Lemma historyChecks_after_finding trs st :
  problems st ≠ [] →
  (historyChecks c rule selector trs st).2
  = (foldM (labelCheck c rule selector) (labelNames selector) [] st).2.
Proof.
  intros Hne. unfold historyChecks, mbind, M_bind.
  destruct (labelLoop_grows (labelNames selector) [] st) as [ps Hps].
  destruct (foldM (labelCheck c rule selector) (labelNames selector) [] st)
    as [hc st1].
  unfold lenProblems. simpl in Hps. rewrite Hps.
  destruct (problems st) as [|p l]; [done|]. reflexivity.
Qed.

End Accumulator.


Section Scenarios.
Import World.
#[local] Existing Instance lib.

(** C1, at the rule [ALERTS{alertname="HighLatency"} ... up].  Checked
    alone, [up] has two intervals in the window and gets the Warning of
    step 8.  Checked after the selector on [ALERTS], whose cross-check
    leaves one Information finding in the accumulator, the same [up] gets
    nothing: the test that follows the loop over the labels reads the
    findings of the whole call, so that with any finding already in the
    accumulator nothing is run after that loop. *)
Theorem Check_skips_after_earlier_finding :
  (∀ (L : Lib) c rule selector trs st,
     problems st ≠ [] →
     (@historyChecks L c rule selector trs st).2
     = (foldM (@labelCheck L c rule selector) (labelNames selector) [] st).2)
  ∧ length (ranges upHistory) = 2%nat
  ∧ problems (Check (mkSeriesCheck promSometimes) (ruleOf upNode)
                highLatencyRule)
    = [metricSometimes (mkSeriesCheck promSometimes) (ruleOf upNode)
         upSelector upHistory]
  ∧ getSelectors (Query (ruleOf alertsAndUp)) = [alertsSelector; upSelector]
  ∧ problems (Check (mkSeriesCheck promSometimes) (ruleOf alertsAndUp)
                highLatencyRule)
    = [alertFound (ruleOf alertsAndUp) alertsSelector].
Proof.
  split; [intros L; apply historyChecks_after_finding|].
  repeat split; vm_compute; reflexivity.
Qed.

End Scenarios.

(** ** Disappearance of a matcher *)

Section MatcherGone.
Import World.
#[local] Existing Instance lib.

Lemma wrap64_neg_rangeStep : wrap64 (rangeStep * -1) = - rangeStep.
Proof. reflexivity. Qed.

(** For a single interval that does not end before it starts, the test of
    step 6 does not depend on where the interval starts. *)
Lemma matcherGone_any_start trsLabel r :
  ranges trsLabel = [r] → start r ≤ end_ r →
  matcherGone trsLabel = Time.Before (end_ r) (until trsLabel - rangeStep).
Proof.
  intros Hr Hle. unfold matcherGone, oldest, newest. rewrite Hr. simpl.
  rewrite wrap64_neg_rangeStep.
  unfold Time.After, Time.Before, Time.Add.
  repeat match goal with
         | |- context [?a <? ?b] => destruct (Z.ltb_spec a b)
         end;
    unfold rangeLookback, rangeStep, Hour, Minute, Second in *;
    simpl; try reflexivity; lia.
Qed.

(** C2, at the rule [foo{job="api"}].  The matcher has a single interval
    that starts four days after the window opens and ends one day before it
    closes; step 6 reports it as a series that disappeared.  The test of
    step 6 compares the start of the interval with an instant that lies
    after the end of the window, so the start never matters. *)
Theorem matcher_disappearance_ignores_start :
  (∀ trsLabel r, ranges trsLabel = [r] → start r ≤ end_ r →
     matcherGone trsLabel
     = Time.Before (end_ r) (until trsLabel - rangeStep))
  ∧ ranges lateHistory
  = [mkTimeRange ∅ (windowStart + 4 * 24 * Hour) (windowEnd - 24 * Hour)]
  ∧ from lateHistory = windowStart
  ∧ until lateHistory = windowEnd
  ∧ matcherGone lateHistory = true
  ∧ problems (Check (mkSeriesCheck promLate) (ruleOf fooJobNode) [])
    = [matcherLastSeen (mkSeriesCheck promLate) (ruleOf fooJobNode) fooJob
         fooHistory jobMatcher lateHistory].
Proof.
  split; [apply matcherGone_any_start|].
  repeat split; vm_compute; reflexivity.
Qed.

End MatcherGone.

(** ** Selectors on the metrics of the alerting engine *)

Section Alerts.
Context `{!Lib}.
Variable c : SeriesCheck.

Lemma alertname_fold ms (acc : string) :
  fold_left (fun an lm =>
      if String.eqb (lmName lm) "alertname"
         && negb (bool_decide (lmType lm = MatchRegexp))
         && negb (bool_decide (lmType lm = MatchNotRegexp))
      then lmValue lm else an) ms acc
  = default acc (last (lmValue <$> filter literalAlertname ms)).
Proof.
  revert acc. induction ms as [|lm ms IH]; intros acc; simpl; [done|].
  rewrite IH, filter_cons.
  destruct (decide (literalAlertname lm)) as [[Hn Ht]|Hd].
  - rewrite Hn. simpl. rewrite last_cons.
    destruct Ht as [Ht|Ht]; rewrite Ht; simpl; by destruct (last _).
  - destruct (String.eqb_spec (lmName lm) "alertname") as [Hn|Hn]; simpl;
      [|done].
    destruct (lmType lm) eqn:Ht; simpl; try done;
      exfalso; apply Hd; split; auto.
Qed.

Lemma alertname_crossChecked selector :
  alertname selector = crossCheckedName selector.
Proof. apply alertname_fold. Qed.

Lemma providesAlert_spec an entry :
  providesAlert an entry = true
  ↔ AlertingRule entry = Some an ∧ RuleError entry = None.
Proof.
  unfold providesAlert. destruct (AlertingRule entry) as [a|].
  - rewrite andb_true_iff, bool_decide_eq_true, String.eqb_eq.
    split; [intros (He & ->); done | intros (Ha & He)].
    injection Ha as ->. done.
  - split; [discriminate | intros [Ha _]; discriminate].
Qed.

Lemma find_alert an entries :
  (∃ entry, List.find (providesAlert an) entries = Some entry)
  ↔ alertingRuleNamed an entries.
Proof.
  unfold alertingRuleNamed. split.
  - intros [entry Hf]. apply List.find_some in Hf as [Hin Hp].
    exists entry. rewrite list_elem_of_In. by rewrite <- providesAlert_spec.
  - intros (entry & Hin & Ha & He).
    destruct (List.find (providesAlert an) entries) as [e|] eqn:Hf; [eauto|].
    exfalso. apply list_elem_of_In in Hin.
    pose proof (List.find_none _ _ Hf entry Hin) as Hn.
    assert (providesAlert an entry = true) as Hy
      by by apply providesAlert_spec.
    congruence.
Qed.

(** The amended form of C3.  For a selector on [ALERTS] or
    [ALERTS_FOR_STATE] that no directive disables, the check looks at the
    last matcher on [alertname] that is an equality or an inequality: when
    there is one and its value is not empty, the value is cross-checked
    against the entries, with one Information finding when an alerting rule
    of that name that parsed is among them and one Bug finding when none is;
    otherwise there is no finding.  In every case the two lookups of the
    disabling directives are the only calls made: no query reaches the
    backend. *)
Theorem alerts_cross_check rule entries selector st :
  isAlertsMetric selector = true →
  HasComment rule (disableComment (selectorString selector)) = false →
  HasComment rule (disableComment (selectorString (stripLabels selector)))
  = false →
  trace (checkSelector c rule entries selector st).2
  = trace st
    ++ [EvHasComment (disableComment (selectorString selector));
        EvHasComment (disableComment (selectorString (stripLabels selector)))]
  ∧ alertname selector = crossCheckedName selector
  ∧ (crossCheckedName selector = "" →
     problems (checkSelector c rule entries selector st).2 = problems st)
  ∧ (crossCheckedName selector ≠ "" →
     alertingRuleNamed (crossCheckedName selector) entries →
     problems (checkSelector c rule entries selector st).2
     = problems st ++ [alertFound rule selector])
  ∧ (crossCheckedName selector ≠ "" →
     ¬ alertingRuleNamed (crossCheckedName selector) entries →
     problems (checkSelector c rule entries selector st).2
     = problems st ++ [alertMissing rule selector])
  ∧ Severity_ (alertFound rule selector) = Information
  ∧ Severity_ (alertMissing rule selector) = Bug.
Proof.
  intros Halerts Hc1 Hc2.
  assert (checkSelector c rule entries selector st
          = alertsCheck rule entries selector
              (mkSt (problems st)
                 (trace st
                    ++ [EvHasComment (disableComment (selectorString selector));
                        EvHasComment
                          (disableComment
                             (selectorString (stripLabels selector)))])))
    as ->.
  { unfold checkSelector, isDisabled, bareSelector, disableComment in *.
    unfoldM. simpl. rewrite Hc1. simpl. rewrite Hc2, Halerts.
    by rewrite <- app_assoc. }
  pose proof (find_alert (crossCheckedName selector) entries) as Hfind.
  unfold alertsCheck. rewrite !alertname_crossChecked. unfoldM.
  destruct (String.eqb_spec (crossCheckedName selector) "") as [He|Hne];
    simpl.
  - repeat split; try done.
  - destruct (List.find (providesAlert (crossCheckedName selector)) entries)
      as [entry|] eqn:Hf; simpl.
    + repeat split; try done. intros _ Hno. exfalso. apply Hno, Hfind. eauto.
    + repeat split; try done. intros _ Hyes. apply Hfind in Hyes as [e He].
      discriminate.
Qed.

End Alerts.

Section AlertsScenario.
Import World.
#[local] Existing Instance lib.

(** C3 fails at [ALERTS{alertname!="foo"}]: the selector has no equality
    matcher on [alertname], and yet the name [foo] is cross-checked and,
    without any rule, reported as a Bug. *)
Lemma alerts_not_equal_counterexample :
  isAlertsMetric notFoo = true
  ∧ (∀ lm, lm ∈ LabelMatchers notFoo → lmName lm = "alertname" →
       lmType lm ≠ MatchEqual)
  ∧ problems (Check (mkSeriesCheck promDown) (ruleOf notFooNode) [])
    = [alertMissing (ruleOf notFooNode) notFoo]
  ∧ Severity_ (alertMissing (ruleOf notFooNode) notFoo) = Bug.
Proof.
  split; [reflexivity|]. split; [|split; vm_compute; reflexivity].
  intros lm Hin Hn. unfold notFoo in Hin. simpl in Hin.
  apply elem_of_cons in Hin as [->|Hin]; [discriminate Hn|].
  apply list_elem_of_singleton in Hin as ->. discriminate.
Qed.

Lemma alerts_cross_check_witness :
  problems (checkSelector (mkSeriesCheck promDown) (ruleOf alertsNode)
              highLatencyRule alertsSelector emptyState).2
  = [alertFound (ruleOf alertsNode) alertsSelector].
Proof.
  destruct (alerts_cross_check (mkSeriesCheck promDown) (ruleOf alertsNode)
              highLatencyRule alertsSelector emptyState
              eq_refl eq_refl eq_refl) as (_ & _ & _ & Hfound & _).
  apply Hfound.
  - vm_compute. discriminate.
  - exists (mkEntry "rules.yml" (Some "HighLatency") None None).
    split; [apply list_elem_of_here | split; reflexivity].
Defined.

End AlertsScenario.

(** ** High-churn labels *)




Section HighChurn.
Context `{!Lib}.
Variable c : SeriesCheck.


End HighChurn.

Section HighChurnScenario.
Import World.
#[local] Existing Instance lib.



End HighChurnScenario.

(** ** Disappearance of the metric *)

Lemma oldest_single trs r : ranges trs = [r] → oldest trs = start r.
Proof. intros Hr. unfold oldest. by rewrite Hr. Qed.

Lemma newest_single trs r : ranges trs = [r] → newest trs = end_ r.
Proof. intros Hr. unfold newest. by rewrite Hr. Qed.

Lemma metricGone_spec trs :
  metricGone trs = true
  ↔ ∃ r, ranges trs = [r] ∧ start r ≤ from trs + rangeStep
         ∧ end_ r < until trs - rangeStep.
Proof.
  unfold metricGone. rewrite wrap64_neg_rangeStep.
  rewrite !andb_true_iff, negb_true_iff.
  unfold Time.After, Time.Before, Time.Add. rewrite Z.ltb_ge, Z.ltb_lt.
  split.
  - intros [[Hlen Hold] Hnew].
    destruct (ranges trs) as [|r [|r' rs]] eqn:Hr; try discriminate.
    exists r. rewrite (oldest_single trs r Hr) in Hold.
    rewrite (newest_single trs r Hr) in Hnew. split; [done | lia].
  - intros (r & Hr & Hold & Hnew).
    rewrite (oldest_single trs r Hr), (newest_single trs r Hr), Hr.
    split; [split; [done | lia] | lia].
Qed.

Lemma withinMinAge_spec t r minAge :
  ranges t = [r] → minInt64 < minAge ≤ maxInt64 →
  withinMinAge t minAge = true ↔ until t - minAge ≤ end_ r.
Proof.
  intros Hr Hrange. unfold withinMinAge, Time.Before, Time.Add.
  rewrite (newest_single t r Hr), negb_true_iff, Z.ltb_ge.
  rewrite wrap64_id; [lia|]. unfold minInt64, maxInt64 in *. lia.
Qed.

Section Disappearance.
Context `{!Lib}.
Variable c : SeriesCheck.

Lemma minAgeWarnings_none rule selector :
  (∀ key, failsToParse rule key = false) →
  minAgeWarnings rule selector = [].
Proof.
  intros Hok. unfold minAgeWarnings, directiveWarning.
  pose proof (Hok globalKey) as Hg.
  pose proof (Hok (bareKey selector)) as Hb.
  pose proof (Hok (selectorKey selector)) as Hs.
  unfold failsToParse in Hg, Hb, Hs.
  repeat match goal with
         | |- context [GetComment rule ?k] =>
             destruct (GetComment rule k) as [?cmt|]; simpl
         end;
    repeat match goal with
           | H : context [ParseDuration ?v] |- _ =>
               destruct (ParseDuration v); try discriminate H
           end; reflexivity.
Qed.

Lemma metricDisappearance_run rule selector trs st :
  metricDisappearance c rule selector trs st
  = (tt,
     mkSt (problems st ++ minAgeWarnings rule selector
             ++ (if withinMinAge trs (resolvedMinAge rule selector)
                 then [] else [metricLastSeen c rule selector trs]))
       (trace st ++ [EvGetComment globalKey; EvGetComment (bareKey selector);
                     EvGetComment (selectorKey selector)])).
Proof.
  unfold metricDisappearance. unfold mbind at 1, M_bind.
  rewrite getMinAge_run. unfoldM. simpl.
  destruct (minAgeWarnings rule selector) as [|w ws]; simpl;
    destruct (withinMinAge trs (resolvedMinAge rule selector)); simpl;
    rewrite ?app_nil_r, <- ?app_assoc; reflexivity.
Qed.

(** The amended form of C7.  When the bare metric has exactly one interval,
    which starts no later than one step after the window opens and ends more
    than one step before it closes, step 4 looks up the three [min-age]
    directives and queries nothing.  If the interval ends within the
    resolved [min-age] of the end of the window, the only findings are the
    Warnings of the [min-age] directives that do not parse (none when all
    of them parse); if it ends earlier, these are followed by exactly one
    Bug finding, whose text says how long ago the metric was last
    present. *)
Theorem metric_disappearance rule selector trs hc st r :
  ranges trs = [r] →
  start r ≤ from trs + rangeStep →
  end_ r < until trs - rangeStep →
  metricGone trs = true
  ∧ trace (deeperChecks c rule selector trs hc st).2
    = trace st ++ [EvGetComment globalKey; EvGetComment (bareKey selector);
                   EvGetComment (selectorKey selector)]
  ∧ (withinMinAge trs (resolvedMinAge rule selector) = true →
     problems (deeperChecks c rule selector trs hc st).2
     = problems st ++ minAgeWarnings rule selector)
  ∧ (withinMinAge trs (resolvedMinAge rule selector) = false →
     problems (deeperChecks c rule selector trs hc st).2
     = problems st ++ minAgeWarnings rule selector
         ++ [metricLastSeen c rule selector trs])
  ∧ (minInt64 < resolvedMinAge rule selector ≤ maxInt64 →
     withinMinAge trs (resolvedMinAge rule selector) = true
     ↔ until trs - resolvedMinAge rule selector ≤ end_ r)
  ∧ Forall (fun p => Severity_ p = Warning) (minAgeWarnings rule selector)
  ∧ ((∀ key, failsToParse rule key = false) →
     minAgeWarnings rule selector = [])
  ∧ Severity_ (metricLastSeen c rule selector trs) = Bug
  ∧ Text (metricLastSeen c rule selector trs)
    = promText (promName (prom c)) (uri trs) +:+ " doesn't currently have "
        +:+ quote (selectorString (stripLabels selector))
        +:+ ", it was last present " +:+ sinceDesc (end_ r) +:+ " ago".
Proof.
  intros Hr Hold Hnew.
  assert (metricGone trs = true) as Hgone
    by (apply metricGone_spec; eauto).
  split; [done|].
  unfold deeperChecks. rewrite Hgone, metricDisappearance_run. simpl.
  split; [done|]. split; [|split; [|split; [|split; [|split; [|split]]]]].
  - intros ->. by rewrite app_nil_r.
  - by intros ->.
  - intros Hrange. by apply withinMinAge_spec.
  - apply Forall_forall. intros p. apply minAgeWarnings_Warning.
  - apply minAgeWarnings_none.
  - done.
  - unfold metricLastSeen, bareSelector. simpl.
    by rewrite (newest_single trs r Hr).
Qed.

End Disappearance.

Section DisappearanceScenario.
Import World.
#[local] Existing Instance lib.

(** C7 fails at the rule [foo] with the directive [min-age soon]: the one
    interval of [foo] starts when the window opens and ends one hour before
    it closes, within the two hours that stay in effect, and yet the check
    of the selector produces a finding, the Warning on the directive. *)
Lemma malformed_min_age_counterexample :
  ranges lastHourHistory = [mkTimeRange ∅ windowStart (windowEnd - Hour)]
  ∧ metricGone lastHourHistory = true
  ∧ resolvedMinAge fooSoon fooSelector = 2 * Hour
  ∧ withinMinAge lastHourHistory (2 * Hour) = true
  ∧ problems (Check (mkSeriesCheck promLastHour) fooSoon [])
    = minAgeWarnings fooSoon fooSelector
  ∧ length (minAgeWarnings fooSoon fooSelector) = 1%nat.
Proof. repeat split; vm_compute; reflexivity. Qed.

Lemma metric_disappearance_witness :
  problems (deeperChecks (mkSeriesCheck promLastDay) (ruleOf fooNode)
              fooSelector lastDayHistory [] emptyState).2
  = [metricLastSeen (mkSeriesCheck promLastDay) (ruleOf fooNode) fooSelector
       lastDayHistory].
Proof.
  destruct (metric_disappearance (mkSeriesCheck promLastDay) (ruleOf fooNode)
              fooSelector lastDayHistory [] emptyState
              (mkTimeRange ∅ windowStart (windowEnd - 24 * Hour)))
    as (_ & _ & _ & Hgone & _).
  - vm_compute. reflexivity.
  - vm_compute. discriminate.
  - vm_compute. reflexivity.
  - apply Hgone. vm_compute. reflexivity.
Defined.

End DisappearanceScenario.

(** ** Errors of the backend *)

Section Errors.
Context `{!Lib}.
Variable c : SeriesCheck.

Lemma isLabelValueIgnored_run rule selector labelName st :
  isLabelValueIgnored rule selector labelName st
  = (ignoredBy rule selector labelName,
     mkSt (problems st) (trace st ++ ignoreLookups rule selector labelName)).
Proof.
  unfold ignoredBy, ignoreLookups, isLabelValueIgnored, foldM. unfoldM.
  simpl.
  repeat match goal with
         | |- context [HasComment rule ?s] =>
             destruct (HasComment rule s); simpl
         end;
    rewrite <- ?app_assoc; reflexivity.
Qed.

Lemma serieTimeRanges_error query lookback stp st err :
  promRangeQuery (prom c) (trace st) query lookback stp = inr err →
  serieTimeRanges c query lookback stp st
  = (inr err,
     mkSt (problems st) (trace st ++ [EvRangeQuery query lookback stp])).
Proof.
  intros Hq. unfold serieTimeRanges. unfoldM. simpl. by rewrite Hq.
Qed.

(** The amended form of C9.  A query that fails never stops the check.  The
    error becomes exactly one finding, with the text and the severity that
    the shared routine gives it (Bug being the default handed to the
    routine), on the selector at steps 1 and 3, on the bare selector at
    step 2 and on the selector of the matcher at step 5.  After it the check
    goes on with the next selector at steps 1 and 2, with the next label in
    the loop of step 3 and with the next matcher in the loop of step 5; and
    whatever a selector did, the loop of [Check] goes on with the selectors
    that remain. *)
Theorem query_errors_become_findings rule entries selector :
  (∀ err printed,
     queryProblem c err printed rule
     = mkProblem printed (exprLines rule) SeriesCheckName
         (textAndSeverityFromError err SeriesCheckName (promName (prom c))
            Bug).1
         (textAndSeverityFromError err SeriesCheckName (promName (prom c))
            Bug).2)
  ∧ (∀ st err,
       promQuery (prom c) (trace st) (instantQuery selector) = inr err →
       presenceChecks c rule entries selector st
       = (tt,
          mkSt (problems st
                  ++ [queryProblem c err (selectorString selector) rule])
            (trace st ++ [EvQuery (instantQuery selector)])))
  ∧ (∀ st qr err,
       promQuery (prom c) (trace st) (instantQuery selector) = inl qr →
       seriesCount qr ≤ 0 →
       promRangeQuery (prom c) (trace st ++ [EvQuery (instantQuery selector)])
         (bareQuery selector) rangeLookback rangeStep = inr err →
       presenceChecks c rule entries selector st
       = (tt,
          mkSt (problems st
                  ++ [queryProblem c err
                        (selectorString (stripLabels selector)) rule])
            (trace st
               ++ [EvQuery (instantQuery selector);
                   EvRangeQuery (bareQuery selector) rangeLookback
                     rangeStep])))
  ∧ (∀ st hc name rest err,
       promRangeQuery (prom c) (trace st) (labelQuery selector name)
         rangeLookback rangeStep = inr err →
       foldM (labelCheck c rule selector) (name :: rest) hc st
       = foldM (labelCheck c rule selector) rest hc
           (mkSt (problems st
                    ++ [queryProblem c err (selectorString selector) rule])
              (trace st
                 ++ [EvRangeQuery (labelQuery selector name) rangeLookback
                       rangeStep])))
  ∧ (∀ st trs hc lm rest err,
       lmName lm ≠ MetricName →
       lmType lm = MatchEqual ∨ lmType lm = MatchRegexp →
       ignoredBy rule selector (lmName lm) = false →
       promRangeQuery (prom c)
         (trace st ++ ignoreLookups rule selector (lmName lm))
         (matcherQuery selector lm) rangeLookback rangeStep = inr err →
       forM (matcherCheck c rule selector trs hc) (lm :: rest) st
       = forM (matcherCheck c rule selector trs hc) rest
           (mkSt (problems st
                    ++ [queryProblem c err
                          (selectorString (labelSelector selector lm)) rule])
              (trace st ++ ignoreLookups rule selector (lmName lm)
                 ++ [EvRangeQuery (matcherQuery selector lm) rangeLookback
                       rangeStep])))
  ∧ (∀ st rest done,
       done !! selectorString selector = None →
       checkSelectors c rule entries (selector :: rest) done st
       = checkSelectors c rule entries rest
           (<[selectorString selector := true]> done)
           (checkSelector c rule entries selector st).2).
Proof.
  split; [|split; [|split; [|split; [|split]]]].
  - intros err printed. unfold queryProblem, Reporter.
    by destruct (textAndSeverityFromError _ _ _ _).
  - intros st err Hq. unfold presenceChecks, instantSeriesCount. unfoldM.
    unfold instantQuery in Hq. simpl. by rewrite Hq.
  - intros st qr err Hq Hcount Hr.
    unfold presenceChecks, instantSeriesCount. unfoldM.
    unfold instantQuery, bareQuery, seriesCount in *. simpl. rewrite Hq.
    simpl. destruct (Z.ltb_spec 0
      (fold_left (fun series v => wrap64 (series + v)) (Series qr) 0));
      [lia|].
    unfold mbind, M_bind, bareSelector.
    rewrite (serieTimeRanges_error _ _ _
               (mkSt (problems st)
                  (trace st
                     ++ [EvQuery ("count(" +:+ selectorString selector
                                    +:+ ")")])) err Hr).
    simpl. by rewrite <- app_assoc.
  - intros st hc name rest err Hq.
    change (foldM (labelCheck c rule selector) (name :: rest) hc st)
      with (let (a, st') := labelCheck c rule selector hc name st in
            foldM (labelCheck c rule selector) rest a st').
    unfold labelCheck, mbind, M_bind.
    rewrite (serieTimeRanges_error _ _ _ st err Hq). by unfoldM.
  - intros st trs hc lm rest err Hname Htype Hign Hq.
    change (forM (matcherCheck c rule selector trs hc) (lm :: rest) st)
      with (let (a, st') := matcherCheck c rule selector trs hc lm st in
            forM (matcherCheck c rule selector trs hc) rest st').
    unfold matcherCheck.
    destruct (String.eqb_spec (lmName lm) MetricName) as [|_]; [done|].
    assert (negb (bool_decide (lmType lm = MatchEqual))
            && negb (bool_decide (lmType lm = MatchRegexp)) = false) as ->.
    { destruct Htype as [-> | ->]; reflexivity. }
    unfold mbind, M_bind. rewrite isLabelValueIgnored_run, Hign.
    rewrite (serieTimeRanges_error _ _ _
               (mkSt (problems st)
                  (trace st ++ ignoreLookups rule selector (lmName lm)))
               err Hq).
    unfoldM. simpl. by rewrite <- app_assoc.
  - intros st rest done Hdone. simpl. rewrite Hdone.
    unfold mbind, M_bind. by destruct (checkSelector _ _ _ _ _).
Qed.

End Errors.

Section ErrorsScenario.
Import World.
#[local] Existing Instance lib.

(** C9 fails at the rule [foo{a="1",b="2"}] when the query on the matcher
    [a] fails at step 5: the error becomes one finding, and the check does
    not go on with the next selector but with the matcher [b] of the same
    selector, for which it makes one more query and reports one more
    finding. *)
Lemma error_then_next_matcher_counterexample :
  getSelectors (Query (ruleOf fooABNode)) = [fooAB]
  ∧ promRangeQuery promFailing [] (matcherQuery fooAB aMatcher) rangeLookback
      rangeStep = inr "connection refused"
  ∧ problems (Check (mkSeriesCheck promFailing) (ruleOf fooABNode) [])
    = [queryProblem (mkSeriesCheck promFailing) "connection refused"
         (selectorString (labelSelector fooAB aMatcher)) (ruleOf fooABNode);
       matcherAbsent (mkSeriesCheck promFailing) (ruleOf fooABNode) fooAB
         fooHistory [] bMatcher noHistory]
  ∧ filter (fun e => isQuery e = true)
      (trace (Check (mkSeriesCheck promFailing) (ruleOf fooABNode) []))
    = [EvQuery (instantQuery fooAB);
       EvRangeQuery (bareQuery fooAB) rangeLookback rangeStep;
       EvRangeQuery (labelQuery fooAB "a") rangeLookback rangeStep;
       EvRangeQuery (labelQuery fooAB "b") rangeLookback rangeStep;
       EvRangeQuery (matcherQuery fooAB aMatcher) rangeLookback rangeStep;
       EvRangeQuery (matcherQuery fooAB bMatcher) rangeLookback rangeStep].
Proof. repeat split; vm_compute; reflexivity. Qed.

Lemma query_errors_become_findings_witness :
  presenceChecks (mkSeriesCheck promDown) (ruleOf fooNode) [] fooSelector
    emptyState
  = (tt,
     mkSt [queryProblem (mkSeriesCheck promDown) "connection refused"
             (selectorString fooSelector) (ruleOf fooNode)]
       [EvQuery (instantQuery fooSelector)]).
Proof.
  destruct (query_errors_become_findings (mkSeriesCheck promDown)
              (ruleOf fooNode) [] fooSelector) as (_ & Hinstant & _).
  apply (Hinstant emptyState "connection refused"). reflexivity.
Defined.

End ErrorsScenario.

(** ** The churn downgrade *)

Section Churn.
Context `{!Lib}.
Variable c : SeriesCheck.



Lemma serieTimeRanges_run query lookback stp st :
  serieTimeRanges c query lookback stp st
  = (match promRangeQuery (prom c) (trace st) query lookback stp with
     | inl qr =>
         inl (mkTimeRanges (rqURI qr) (rqStart qr) (rqEnd qr) stp
                (buildRanges stp (rqSamples qr)))
     | inr err => inr err
     end,
     mkSt (problems st) (trace st ++ [EvRangeQuery query lookback stp])).
Proof.
  unfold serieTimeRanges. unfoldM. simpl.
  by destruct (promRangeQuery _ _ _ _ _).
Qed.

Lemma matcherDisappearance_run rule selector trs lm trsLabel st :
  matcherDisappearance c rule selector trs lm trsLabel st
  = (tt,
     mkSt (problems st ++ minAgeWarnings rule selector
             ++ (if withinMinAge trsLabel (resolvedMinAge rule selector)
                 then []
                 else [matcherLastSeen c rule selector trs lm trsLabel]))
       (trace st ++ [EvGetComment globalKey; EvGetComment (bareKey selector);
                     EvGetComment (selectorKey selector)])).
Proof.
  unfold matcherDisappearance. unfold mbind at 1, M_bind.
  rewrite getMinAge_run. unfoldM. simpl.
  destruct (minAgeWarnings rule selector) as [|w ws]; simpl;
    destruct (withinMinAge trsLabel (resolvedMinAge rule selector)); simpl;
    rewrite ?app_nil_r, <- ?app_assoc; reflexivity.
Qed.

Section Simulation.
Variable rule : Rule.
Variable selector : VectorSelector.
Variable trs : timeRanges.
Variables hc hc' : list string.

Local Abbreviation R := (sameButAbsent c rule selector trs hc hc').
Local Abbreviation sim := (sameFindings c rule selector trs hc hc').






End Simulation.


End Churn.

(** ** The properties at work *)

Section Witnesses.
Import World.
#[local] Existing Instance lib.

Lemma Check_syntax_error_witness :
  problems (Check (mkSeriesCheck promDown) brokenRule []) = []
  ∧ trace (Check (mkSeriesCheck promDown) brokenRule []) = [].
Proof.
  apply (Check_syntax_error (mkSeriesCheck promDown) brokenRule []).
  discriminate.
Defined.

Lemma serieTimeRanges_coalesces_witness :
  ∃ tr, (serieTimeRanges (mkSeriesCheck promShort) "count(foo)" rangeLookback
           rangeStep emptyState).1 = inl tr
    ∧ ∀ (i j : nat) r1 r2, i ≠ j →
        ranges tr !! i = Some r1 → ranges tr !! j = Some r2 →
        labels r1 = labels r2 → ¬ overlap r1 r2.
Proof.
  destruct serieTimeRanges_coalesces as (_ & _ & Hsep).
  destruct (Hsep (mkSeriesCheck promShort) "count(foo)" rangeLookback
              rangeStep emptyState shortAnswer eq_refl)
    as (tr & Htr & _ & _ & _ & Hno).
  - intros [|[|i]] [|[|j]] p q Hij Hp Hq Hl; simpl in Hp, Hq;
      try lia; try discriminate.
    injection Hp as <-. injection Hq as <-. simpl. unfold TimestampTime.
    unfold Millisecond. lia.
  - exists tr. split; [exact Htr | exact Hno].
Defined.

End Witnesses.

(** * Further properties of the code *)

(** ** Selectors of an expression *)

Lemma getSelectors_dropOffsets :
  ∀ n, getSelectors (dropOffsets n) = getSelectors n.
Proof.
  fix IH 1. intros [node children]. simpl. f_equal.
  - by destruct node.
  - induction children as [|child cs IHcs]; simpl; [done|].
    by rewrite IH, IHcs.
Qed.

Lemma stripLabels_fold ms name acc :
  fold_left (fun s lm =>
      if String.eqb (lmName lm) MetricName
      then mkVectorSelector (lmValue lm) (LabelMatchers s ++ [lm])
      else s) ms (mkVectorSelector name acc)
  = mkVectorSelector
      (default name (last (lmValue <$> filter nameMatcher ms)))
      (acc ++ filter nameMatcher ms).
Proof.
  revert name acc. induction ms as [|lm ms IH]; intros name acc; simpl.
  - by rewrite app_nil_r.
  - rewrite filter_cons.
    destruct (decide (nameMatcher lm)) as [Hn|Hn].
    + rewrite (proj2 (String.eqb_eq _ _) Hn). simpl.
      rewrite IH, last_cons, <- app_assoc. simpl. by destruct (last _).
    + rewrite (proj2 (String.eqb_neq _ _) Hn). apply IH.
Qed.

Section Selectors.
Context `{!Lib}.
Variable c : SeriesCheck.

(** X1.  A selector printed like one that came earlier in the expression,
    or like one already done, is skipped: the check behaves as if it were
    not in the list. *)
Theorem checkSelectors_skips_duplicate rule entries l1 s l2 done st :
  (is_Some (done !! selectorString s)
   ∨ ∃ s0, s0 ∈ l1 ∧ selectorString s0 = selectorString s) →
  checkSelectors c rule entries (l1 ++ s :: l2) done st
  = checkSelectors c rule entries (l1 ++ l2) done st.
Proof.
  revert done st. induction l1 as [|a l1 IH]; intros done st Hdup.
  - destruct Hdup as [[b Hb]|(s0 & Hin & _)].
    + simpl. by rewrite Hb.
    + by apply not_elem_of_nil in Hin.
  - simpl. destruct (done !! selectorString a) as [b|] eqn:Ha.
    + apply IH. destruct Hdup as [Hd|(s0 & Hin & Hs0)]; [by left|].
      apply elem_of_cons in Hin as [->|Hin]; [|right; eauto].
      left. rewrite <- Hs0, Ha. eauto.
    + unfold mbind, M_bind.
      destruct (checkSelector c rule entries a st) as [[] st1].
      apply IH. destruct Hdup as [[b Hb]|(s0 & Hin & Hs0)].
      * left. destruct (decide (selectorString a = selectorString s)) as [He|He].
        -- rewrite He, lookup_insert_eq. eauto.
        -- rewrite lookup_insert_ne by done. eauto.
      * apply elem_of_cons in Hin as [->|Hin]; [|right; eauto].
        left. rewrite Hs0, lookup_insert_eq. eauto.
Qed.

Lemma checkSelectors_withQuery rule q entries l :
  ∀ seen st,
    checkSelectors c (withQuery rule q) entries l seen st
    = checkSelectors c rule entries l seen st.
Proof.
  induction l as [|s l IHl]; intros seen st; simpl; [done|].
  destruct (seen !! selectorString s); [apply IHl|].
  unfold mbind, M_bind.
  change (checkSelector c (withQuery rule q) entries s st)
    with (checkSelector c rule entries s st).
  destruct (checkSelector c rule entries s st). apply IHl.
Qed.

(** X3.  Time offsets do not matter: a rule and the same rule with every
    offset of its expression removed are checked alike. *)
Theorem Check_ignores_offsets rule entries :
  getSelectors (dropOffsets (Query rule)) = getSelectors (Query rule)
  ∧ Check c (withQuery rule (dropOffsets (Query rule))) entries
    = Check c rule entries.
Proof.
  split; [apply getSelectors_dropOffsets|].
  unfold Check. cbn [SyntaxError Query withQuery].
  destruct (SyntaxError rule); [done|].
  by rewrite getSelectors_dropOffsets, checkSelectors_withQuery.
Qed.

End Selectors.

(** X2.  [stripLabels] keeps the matchers on the name of the metric, in
    their order, and nothing else; the name of the result is the value of the
    last of them, or the name of the selector when there is none; stripping
    twice is stripping once. *)
Theorem stripLabels_shape selector :
  LabelMatchers (stripLabels selector)
  = filter nameMatcher (LabelMatchers selector)
  ∧ Name (stripLabels selector)
    = default (Name selector)
        (last (lmValue <$> filter nameMatcher (LabelMatchers selector)))
  ∧ stripLabels (stripLabels selector) = stripLabels selector.
Proof.
  assert (∀ s, stripLabels s
    = mkVectorSelector
        (default (Name s)
           (last (lmValue <$> filter nameMatcher (LabelMatchers s))))
        (filter nameMatcher (LabelMatchers s))) as Hshape.
  { intros s. unfold stripLabels. by rewrite stripLabels_fold. }
  split; [by rewrite Hshape|]. split; [by rewrite Hshape|].
  rewrite (Hshape (stripLabels selector)), (Hshape selector). simpl.
  assert (filter nameMatcher (filter nameMatcher (LabelMatchers selector))
          = filter nameMatcher (LabelMatchers selector)) as ->.
  { induction (LabelMatchers selector) as [|lm ms IH]; [done|].
    rewrite filter_cons. destruct (decide (nameMatcher lm)) as [Hn|Hn];
      [|done].
    rewrite filter_cons, decide_True by done. by rewrite IH. }
  by destruct (last _).
Qed.

(** ** What the intervals are made of *)

Section Intervals.
Variable stp : Z.

Local Abbreviation step1 := (fun rs (p : gmap string string * Z) =>
                               addSample stp p.1 rs p.2).

Lemma addSample_builtFrom seen rs p :
  builtFrom stp seen rs →
  builtFrom stp (seen ++ [p]) (addSample stp p.1 rs p.2).
Proof.
  intros (Hall & Hlen & Hne).
  assert (Forall (fun r => (labels r, start r) ∈ seen ++ [p]
                           ∧ (labels r, end_ r - stp) ∈ seen ++ [p]
                           ∧ start r + stp ≤ end_ r) rs) as Hall'.
  { eapply Forall_impl; [exact Hall|]. intros r (H1 & H2 & H3).
    repeat split; [apply elem_of_app; by left..|done]. }
  destruct p as [ls ts]. unfold addSample. simpl.
  destruct (extendFirst stp ls ts rs) as [rs'|] eqn:E.
  - destruct (extendFirst_Some _ _ _ _ _ E) as (i & r & Hi & Hc & _ & ->).
    apply covers_spec in Hc as (Hl & Hs & _).
    split; [|split].
    + apply Forall_insert; [done|]. simpl.
      rewrite Forall_lookup in Hall'. destruct (Hall' i r Hi) as (H1 & _).
      split; [done|]. split; [|lia].
      replace (ts + stp - stp) with ts by lia. rewrite Hl.
      apply elem_of_app. right. apply list_elem_of_here.
    + rewrite length_insert, length_app. simpl. lia.
    + intros _ Hnil. apply (f_equal length) in Hnil.
      rewrite length_insert in Hnil.
      apply lookup_lt_Some in Hi. simpl in Hnil. lia.
  - split; [|split].
    + apply Forall_app. split; [done|]. constructor; [|constructor]. simpl.
      unfold Time.Add. replace (ts + stp - stp) with ts by lia.
      repeat split; try lia; apply elem_of_app; right; apply list_elem_of_here.
    + rewrite !length_app. simpl. lia.
    + intros _. by destruct rs.
Qed.

Lemma fold_builtFrom l :
  ∀ seen rs, builtFrom stp seen rs →
    builtFrom stp (seen ++ l) (fold_left step1 l rs).
Proof.
  induction l as [|p l IH]; intros seen rs Hb; simpl.
  - by rewrite app_nil_r.
  - replace (seen ++ p :: l) with ((seen ++ [p]) ++ l)
      by (by rewrite <- app_assoc).
    apply IH. by apply addSample_builtFrom.
Qed.

(** X12.  Whatever the order of the samples, every interval that
    [serieTimeRanges] builds starts at a sample of its label set, ends one
    step after a sample of that label set and lasts one step at least; there
    are never more intervals than samples, and there is no interval exactly
    when the answer holds no sample. *)
Theorem buildRanges_structure samples :
  Forall (fun r => (labels r, start r) ∈ flatSamples samples
                   ∧ (labels r, end_ r - stp) ∈ flatSamples samples
                   ∧ start r + stp ≤ end_ r) (buildRanges stp samples)
  ∧ (length (buildRanges stp samples) ≤ length (flatSamples samples))%nat
  ∧ (buildRanges stp samples = [] ↔ flatSamples samples = []).
Proof.
  assert (builtFrom stp [] []) as H0.
  { split; [constructor|]. split; [done|]. by intros []. }
  pose proof (fold_builtFrom (flatSamples samples) [] [] H0) as Hb.
  rewrite <- buildRanges_flat in Hb. simpl in Hb.
  destruct Hb as (Hall & Hlen & Hne). split; [done|]. split; [done|].
  split.
  - intros Hnil. destruct (flatSamples samples) as [|p l]; [done|].
    exfalso. by apply Hne.
  - intros Hnil. rewrite Hnil in Hlen. simpl in Hlen.
    destruct (buildRanges stp samples); [done | simpl in Hlen; lia].
Qed.

Lemma addSample_covered seen rs p :
  0 < stp → bounded stp p.1 p.2 rs → covered seen rs →
  covered (seen ++ [p]) (addSample stp p.1 rs p.2).
Proof.
  intros Hstp Hb Hcov q Hq. destruct p as [ls ts]. simpl in *.
  unfold addSample.
  destruct (extendFirst stp ls ts rs) as [rs'|] eqn:E.
  - destruct (extendFirst_Some _ _ _ _ _ E) as (i & r & Hi & Hc & _ & ->).
    apply covers_spec in Hc as (Hl & Hs & He).
    assert (i < length rs)%nat as Hlt by by eapply lookup_lt_Some.
    apply elem_of_app in Hq as [Hq|Hq].
    + destruct (Hcov q Hq) as (r0 & Hr0 & Hl0 & Hin0).
      apply list_elem_of_lookup in Hr0 as [k Hk].
      destruct (decide (k = i)) as [->|Hki].
      * rewrite Hi in Hk. injection Hk as <-.
        exists (mkTimeRange (labels r) (start r) (ts + stp)).
        split; [|split; [done|]].
        -- apply list_elem_of_lookup. exists i.
           by apply list_lookup_insert_eq.
        -- simpl. unfold bounded in Hb. rewrite Forall_lookup in Hb.
           destruct (Hb i r Hi Hl). lia.
      * exists r0. split; [|done]. apply list_elem_of_lookup. exists k.
        by rewrite list_lookup_insert_ne.
    + apply list_elem_of_singleton in Hq as ->. simpl.
      exists (mkTimeRange (labels r) (start r) (ts + stp)).
      split; [|split; [done | simpl; lia]].
      apply list_elem_of_lookup. exists i. by apply list_lookup_insert_eq.
  - apply elem_of_app in Hq as [Hq|Hq].
    + destruct (Hcov q Hq) as (r0 & Hr0 & Hrest). exists r0.
      split; [|done]. apply elem_of_app. by left.
    + apply list_elem_of_singleton in Hq as ->. simpl.
      exists (mkTimeRange ls ts (Time.Add ts stp)).
      split; [|split; [done | simpl; unfold Time.Add; lia]].
      apply elem_of_app. right. apply list_elem_of_here.
Qed.

Lemma fold_covered l :
  0 < stp →
  ∀ seen rs, timeOrdered l → (∀ p, p ∈ l → bounded stp p.1 p.2 rs) →
    covered seen rs → covered (seen ++ l) (fold_left step1 l rs).
Proof.
  intros Hstp. induction l as [|p l IH]; intros seen rs Ho Hb Hcov; simpl.
  - by rewrite app_nil_r.
  - apply timeOrdered_cons in Ho as [Ho Hp].
    replace (seen ++ p :: l) with ((seen ++ [p]) ++ l)
      by (by rewrite <- app_assoc).
    apply IH; [done | |].
    + intros q Hq. apply addSample_bounded.
      * intros Heq. by apply Hp.
      * by apply Hb, list_elem_of_further.
    + apply addSample_covered; [done | | done].
      apply Hb, list_elem_of_here.
Qed.

(** X13.  With a positive step and the samples of every label set in the
    order of their timestamps, no presence is lost: every sample of the
    answer lies in an interval of its label set. *)
Theorem buildRanges_covers samples ls ts :
  0 < stp → timeOrdered (flatSamples samples) →
  (ls, ts) ∈ flatSamples samples →
  ∃ r, r ∈ buildRanges stp samples ∧ labels r = ls ∧ start r ≤ ts < end_ r.
Proof.
  intros Hstp Ho Hin. rewrite buildRanges_flat.
  assert (covered ([] ++ flatSamples samples)
            (fold_left step1 (flatSamples samples) [])) as Hcov.
  { apply (fold_covered (flatSamples samples) Hstp [] [] Ho).
    - intros p _. apply Forall_nil_2.
    - intros p Hp. by apply not_elem_of_nil in Hp. }
  apply (Hcov (ls, ts) Hin).
Qed.

End Intervals.

(** ** Statistics of a history *)

Lemma oldest_fold rs :
  ∀ acc, 0 < acc → Forall (fun r => 0 < start r) rs →
    0 < fold_left (fun ts r =>
          if Time.IsZero ts || Time.Before (start r) ts then start r else ts)
          rs acc
      ≤ acc
    ∧ (∀ r, r ∈ rs →
         fold_left (fun ts r =>
           if Time.IsZero ts || Time.Before (start r) ts then start r else ts)
           rs acc ≤ start r)
    ∧ (fold_left (fun ts r =>
         if Time.IsZero ts || Time.Before (start r) ts then start r else ts)
         rs acc = acc
       ∨ ∃ r, r ∈ rs
           ∧ fold_left (fun ts r =>
               if Time.IsZero ts || Time.Before (start r) ts
               then start r else ts) rs acc = start r).
Proof.
  induction rs as [|r rs IH]; intros acc Hacc Hpos; cbn [fold_left].
  - split; [lia|]. split; [|by left]. intros r Hr.
    by apply not_elem_of_nil in Hr.
  - inversion Hpos as [|? ? Hr Hrs]; subst.
    destruct (Time.IsZero acc || Time.Before (start r) acc) eqn:Hc;
      unfold Time.IsZero, Time.Before in Hc;
      [apply orb_true_iff in Hc as [Hz|Hlt];
         [apply Z.eqb_eq in Hz; lia | apply Z.ltb_lt in Hlt]
      |apply orb_false_iff in Hc as [_ Hge]; apply Z.ltb_ge in Hge].
    + destruct (IH (start r) Hr Hrs) as (Hb & Hmin & Hex).
      split; [lia|]. split.
      * intros r' Hr'. apply elem_of_cons in Hr' as [->|Hr']; [lia|].
        by apply Hmin.
      * right. destruct Hex as [He|(r' & Hr' & He)].
        -- exists r. split; [apply list_elem_of_here | done].
        -- exists r'. split; [by apply list_elem_of_further | done].
    + destruct (IH acc Hacc Hrs) as (Hb & Hmin & Hex).
      split; [done|]. split.
      * intros r' Hr'. apply elem_of_cons in Hr' as [->|Hr']; [lia|].
        by apply Hmin.
      * destruct Hex as [He|(r' & Hr' & He)]; [by left|].
        right. exists r'. split; [by apply list_elem_of_further | done].
Qed.

Lemma newest_fold rs :
  ∀ acc, 0 < acc → Forall (fun r => 0 < end_ r) rs →
    acc ≤ fold_left (fun ts r =>
            if Time.IsZero ts || Time.After (end_ r) ts then end_ r else ts)
            rs acc
    ∧ (∀ r, r ∈ rs →
         end_ r ≤ fold_left (fun ts r =>
           if Time.IsZero ts || Time.After (end_ r) ts then end_ r else ts)
           rs acc)
    ∧ (fold_left (fun ts r =>
         if Time.IsZero ts || Time.After (end_ r) ts then end_ r else ts)
         rs acc = acc
       ∨ ∃ r, r ∈ rs
           ∧ fold_left (fun ts r =>
               if Time.IsZero ts || Time.After (end_ r) ts
               then end_ r else ts) rs acc = end_ r).
Proof.
  induction rs as [|r rs IH]; intros acc Hacc Hpos; cbn [fold_left].
  - split; [lia|]. split; [|by left]. intros r Hr.
    by apply not_elem_of_nil in Hr.
  - inversion Hpos as [|? ? Hr Hrs]; subst.
    destruct (Time.IsZero acc || Time.After (end_ r) acc) eqn:Hc;
      unfold Time.IsZero, Time.After in Hc;
      [apply orb_true_iff in Hc as [Hz|Hlt];
         [apply Z.eqb_eq in Hz; lia | apply Z.ltb_lt in Hlt]
      |apply orb_false_iff in Hc as [_ Hge]; apply Z.ltb_ge in Hge].
    + destruct (IH (end_ r) Hr Hrs) as (Hb & Hmax & Hex).
      split; [lia|]. split.
      * intros r' Hr'. apply elem_of_cons in Hr' as [->|Hr']; [lia|].
        by apply Hmax.
      * right. destruct Hex as [He|(r' & Hr' & He)].
        -- exists r. split; [apply list_elem_of_here | done].
        -- exists r'. split; [by apply list_elem_of_further | done].
    + destruct (IH acc Hacc Hrs) as (Hb & Hmax & Hex).
      split; [done|]. split.
      * intros r' Hr'. apply elem_of_cons in Hr' as [->|Hr']; [lia|].
        by apply Hmax.
      * destruct Hex as [He|(r' & Hr' & He)]; [by left|].
        right. exists r'. split; [by apply list_elem_of_further | done].
Qed.

(** X10.  On a history with an interval at least, all of whose intervals
    start and end after the zero time, [oldest] is the earliest start and
    [newest] is the latest end. *)
Theorem oldest_newest_extremes tr :
  ranges tr ≠ [] →
  Forall (fun r => 0 < start r ∧ 0 < end_ r) (ranges tr) →
  (∃ r, r ∈ ranges tr ∧ oldest tr = start r)
  ∧ (∀ r, r ∈ ranges tr → oldest tr ≤ start r)
  ∧ (∃ r, r ∈ ranges tr ∧ newest tr = end_ r)
  ∧ (∀ r, r ∈ ranges tr → end_ r ≤ newest tr).
Proof.
  intros Hne Hpos. unfold oldest, newest.
  destruct (ranges tr) as [|r rs]; [done|].
  inversion Hpos as [|? ? [Hs He] Hrs]; subst. simpl.
  assert (Forall (fun r => 0 < start r) rs) as Hstarts
    by (eapply Forall_impl; [exact Hrs | by intros ? []]).
  assert (Forall (fun r => 0 < end_ r) rs) as Hends
    by (eapply Forall_impl; [exact Hrs | by intros ? []]).
  destruct (oldest_fold rs (start r) Hs Hstarts) as (Hb & Hmin & Hex).
  destruct (newest_fold rs (end_ r) He Hends) as (Hb' & Hmax & Hex').
  split; [|split; [|split]].
  - destruct Hex as [->|(r' & Hr' & ->)].
    + exists r. split; [apply list_elem_of_here | done].
    + exists r'. split; [by apply list_elem_of_further | done].
  - intros r' Hr'. apply elem_of_cons in Hr' as [->|Hr']; [lia|].
    by apply Hmin.
  - destruct Hex' as [->|(r' & Hr' & ->)].
    + exists r. split; [apply list_elem_of_here | done].
    + exists r'. split; [by apply list_elem_of_further | done].
  - intros r' Hr'. apply elem_of_cons in Hr' as [->|Hr']; [lia|].
    by apply Hmax.
Qed.





(** ** Values of a label *)

Lemma size_list_to_set_le (l : list string) :
  (size (list_to_set l : gset string) ≤ length l)%nat.
Proof.
  induction l as [|x l IH].
  - by rewrite list_to_set_nil, size_empty.
  - rewrite list_to_set_cons, length_cons.
    destruct (decide (x ∈ (list_to_set l : gset string))) as [Hin|Hout].
    + assert (({[x]} : gset string) ∪ list_to_set l = list_to_set l) as ->
        by (by apply subseteq_union_1_L, singleton_subseteq_l).
      lia.
    + rewrite size_union by (by apply disjoint_singleton_l).
      rewrite size_singleton. lia.
Qed.

Lemma size_list_to_set_eq (l : list string) :
  size (list_to_set l : gset string) = length l ↔ NoDup l.
Proof.
  split; [|apply size_list_to_set].
  induction l as [|x l IH]; intros Hsize; [constructor|].
  rewrite list_to_set_cons, length_cons in Hsize.
  pose proof (size_list_to_set_le l) as Hle.
  destruct (decide (x ∈ (list_to_set l : gset string))) as [Hin|Hout].
  - assert (({[x]} : gset string) ∪ list_to_set l = list_to_set l) as Heq
      by (by apply subseteq_union_1_L, singleton_subseteq_l).
    rewrite Heq in Hsize. lia.
  - rewrite size_union in Hsize by (by apply disjoint_singleton_l).
    rewrite size_singleton in Hsize.
    constructor; [|apply IH; lia].
    intros Hin. apply Hout. by apply elem_of_list_to_set.
Qed.

Lemma withLabelName_length name rs :
  length (filter (fun r => hasLabel name r = true) rs)
  = length (omap (fun r => labels r !! name) rs).
Proof.
  induction rs as [|r rs IH]; [done|].
  rewrite filter_cons. simpl.
  destruct (decide (hasLabel name r = true)) as [Hh|Hh]; unfold hasLabel in Hh.
  - apply bool_decide_eq_true in Hh as [v Hv]. rewrite Hv. simpl in *.
    by rewrite IH.
  - destruct (labels r !! name) as [v|] eqn:Hv; [|done].
    exfalso. apply Hh. apply bool_decide_eq_true. eauto.
Qed.

Lemma omap_length_le name rs :
  (length (omap (fun r : timeRange => labels r !! name) rs) ≤ length rs)%nat
  ∧ (length (omap (fun r : timeRange => labels r !! name) rs) = length rs
     ↔ Forall (fun r => is_Some (labels r !! name)) rs).
Proof.
  induction rs as [|r rs [IHle IHeq]]; simpl.
  - split; [lia|]. split; [constructor | done].
  - destruct (labels r !! name) as [v|] eqn:Hv; simpl;
      change (list_omap timeRange string (fun r0 => labels r0 !! name) rs)
        with (omap (fun r0 : timeRange => labels r0 !! name) rs).
    + split; [lia|]. split.
      * intros Hl. constructor; [by rewrite Hv | apply IHeq; lia].
      * intros Hall. inversion Hall; subst. f_equal. by apply IHeq.
    + split; [lia|]. split; [lia|].
      intros Hall. inversion Hall as [|? ? [? Hs] ?]; subst.
      rewrite Hv in Hs. discriminate.
Qed.

(** X8.  There are never more distinct values of a label than intervals
    that carry the label, nor more of those than intervals; no interval
    carries the label exactly when it has no value; and the number of
    values equals the number of intervals, the first half of the test for
    high churn, exactly when every interval carries the label and no two
    intervals have the same value.  So a label flagged on a history that has
    an interval is never reported as missing at step 3. *)
Theorem labelValues_count name tr :
  (size (labelValues name tr) ≤ length (withLabelName name tr))%nat
  ∧ (length (withLabelName name tr) ≤ length (ranges tr))%nat
  ∧ (withLabelName name tr = [] ↔ labelValues name tr = ∅)
  ∧ (size (labelValues name tr) = length (ranges tr)
     ↔ Forall (fun r => is_Some (labels r !! name)) (ranges tr)
       ∧ NoDup (omap (fun r => labels r !! name) (ranges tr)))
  ∧ (highChurn name tr = true → ranges tr ≠ [] →
     withLabelName name tr ≠ []).
Proof.
  unfold labelValues, withLabelName.
  pose proof (withLabelName_length name (ranges tr)) as Hlen.
  pose proof (omap_length_le name (ranges tr)) as [Hle Heq].
  pose proof (size_list_to_set_le
                (omap (fun r => labels r !! name) (ranges tr))) as Hsize.
  pose proof (size_list_to_set_eq
                (omap (fun r => labels r !! name) (ranges tr))) as Hnodup.
  set (l := omap (fun r => labels r !! name) (ranges tr)) in *.
  set (w := filter (fun r => hasLabel name r = true) (ranges tr)) in *.
  assert (size (list_to_set l : gset string) = length (ranges tr)
          ↔ Forall (fun r => is_Some (labels r !! name)) (ranges tr)
            ∧ NoDup l) as Hiff.
  { split.
    - intros Hs. split; [apply Heq; lia | apply Hnodup; lia].
    - intros [Hall Hnd]. apply Heq in Hall. apply Hnodup in Hnd. lia. }
  split; [lia|]. split; [lia|]. split; [|split; [done|]].
  - split.
    + intros Hw. rewrite Hw in Hlen. simpl in Hlen.
      destruct l; [done | discriminate].
    + intros Hempty. destruct l as [|x l'].
      * destruct w; [done | discriminate].
      * exfalso. rewrite list_to_set_cons in Hempty.
        apply (not_elem_of_empty (C := gset string) x). rewrite <- Hempty.
        by apply elem_of_union_l, elem_of_singleton.
  - unfold highChurn, labelValues. fold l.
    intros Hflag Hne Hw. apply andb_true_iff in Hflag as [Hs _].
    apply Nat.eqb_eq in Hs. rewrite Hw in Hlen. simpl in Hlen.
    destruct (ranges tr); [done|]. simpl in *. lia.
Qed.

(** ** The accumulator only grows *)

Lemma extends_refl st : extends st st.
Proof. exists [], []. destruct st. simpl. by rewrite !app_nil_r. Qed.

Lemma extends_trans st1 st2 st3 :
  extends st1 st2 → extends st2 st3 → extends st1 st3.
Proof.
  intros (ps & evs & ->) (ps' & evs' & ->). exists (ps ++ ps'), (evs ++ evs').
  simpl. by rewrite !app_assoc.
Qed.

Lemma grows_ret {A} (a : A) : grows (mret a).
Proof. intros st. apply extends_refl. Qed.

Lemma grows_bind {A B} (m : M A) (k : A → M B) :
  grows m → (∀ a, grows (k a)) → grows (m ≫= k).
Proof.
  intros Hm Hk st. unfold mbind, M_bind. specialize (Hm st).
  destruct (m st) as [a st1]. eapply extends_trans; [exact Hm | apply Hk].
Qed.

Lemma grows_appendProblems ps : grows (appendProblems ps).
Proof. intros st. exists ps, []. simpl. by rewrite app_nil_r. Qed.

Lemma grows_emit e : grows (emit e).
Proof. intros st. exists [], [e]. simpl. by rewrite app_nil_r. Qed.

Lemma grows_lenProblems : grows lenProblems.
Proof. intros st. apply extends_refl. Qed.

Lemma grows_getTrace : grows getTrace.
Proof. intros st. apply extends_refl. Qed.

Lemma grows_foldM {A B} (f : A → B → M A) l :
  (∀ a b, grows (f a b)) → ∀ a, grows (foldM f l a).
Proof.
  intros Hf. induction l as [|b l IH]; intros a; simpl.
  - apply grows_ret.
  - apply grows_bind; [apply Hf | apply IH].
Qed.

Lemma grows_forM {B} (f : B → M unit) l :
  (∀ b, grows (f b)) → grows (forM f l).
Proof.
  intros Hf. induction l as [|b l IH]; simpl.
  - apply grows_ret.
  - apply grows_bind; [apply Hf | intros _; apply IH].
Qed.

(** Splits a computation into its parts, down to the operations of the
    monad. *)
Ltac grows_steps :=
  repeat first
    [ apply grows_ret
    | apply grows_appendProblems
    | apply grows_emit
    | apply grows_lenProblems
    | apply grows_getTrace
    | apply grows_bind; [|intros ?]
    | apply grows_foldM; intros ? ?
    | apply grows_forM; intros ?
    | match goal with
      | |- grows (if ?b then _ else _) => destruct b
      | |- grows (match ?x with _ => _ end) => destruct x
      | |- grows (let (_, _) := ?x in _) => destruct x
      end ].

Section Growth.
Context `{!Lib}.
Variable c : SeriesCheck.

Lemma grows_getMinAge rule selector : grows (getMinAge rule selector).
Proof. unfold getMinAge, minAgeStep, ruleGetComment. grows_steps. Qed.

Lemma grows_isLabelValueIgnored rule selector name :
  grows (isLabelValueIgnored rule selector name).
Proof. unfold isLabelValueIgnored, ruleHasComment. grows_steps. Qed.

Lemma grows_serieTimeRanges query lookback stp :
  grows (serieTimeRanges c query lookback stp).
Proof. unfold serieTimeRanges, RangeQuery_. grows_steps. Qed.

Lemma grows_matcherCheck rule selector trs hc lm :
  grows (matcherCheck c rule selector trs hc lm).
Proof.
  unfold matcherCheck, matcherHistory, matcherDisappearance.
  grows_steps;
    first [apply grows_isLabelValueIgnored | apply grows_serieTimeRanges
          | apply grows_getMinAge].
Qed.

Lemma grows_matcherHistory rule selector trs hc lm trsLabel :
  grows (matcherHistory c rule selector trs hc lm trsLabel).
Proof.
  unfold matcherHistory, matcherDisappearance.
  grows_steps; apply grows_getMinAge.
Qed.

Lemma grows_labelCheck rule selector hc name :
  grows (labelCheck c rule selector hc name).
Proof. unfold labelCheck. grows_steps; apply grows_serieTimeRanges. Qed.

Lemma grows_deeperChecks rule selector trs hc :
  grows (deeperChecks c rule selector trs hc).
Proof.
  unfold deeperChecks, metricDisappearance, metricIntermittent.
  grows_steps; first [apply grows_matcherCheck | apply grows_getMinAge].
Qed.

Lemma grows_historyChecks rule selector trs :
  grows (historyChecks c rule selector trs).
Proof.
  unfold historyChecks.
  grows_steps; first [apply grows_labelCheck | apply grows_deeperChecks].
Qed.

Lemma grows_checkSelector rule entries selector :
  grows (checkSelector c rule entries selector).
Proof.
  unfold checkSelector, isDisabled, ruleHasComment, alertsCheck,
    presenceChecks, instantSeriesCount, Query_, neverPresent.
  grows_steps;
    first [apply grows_serieTimeRanges | apply grows_labelCheck
          | apply grows_deeperChecks].
Qed.

(** X14.  The check only ever adds: whatever a selector does, the findings
    and the calls made before it are still there afterwards, unchanged and
    in the same order, and this holds for the whole loop over the
    selectors. *)
Theorem findings_append_only rule entries selectors :
  (∀ selector st,
     ∃ ps evs,
       (checkSelector c rule entries selector st).2
       = mkSt (problems st ++ ps) (trace st ++ evs))
  ∧ (∀ seen st,
       ∃ ps evs,
         (checkSelectors c rule entries selectors seen st).2
         = mkSt (problems st ++ ps) (trace st ++ evs)).
Proof.
  split; [intros selector st; apply grows_checkSelector|].
  induction selectors as [|s l IH]; intros seen st; simpl.
  - apply extends_refl.
  - destruct (seen !! selectorString s); [apply IH|].
    unfold mbind, M_bind.
    pose proof (grows_checkSelector rule entries s st) as H1.
    destruct (checkSelector c rule entries s st) as [[] st1].
    eapply extends_trans; [exact H1 | apply IH].
Qed.

End Growth.

(** ** The first steps of the pipeline *)

Section FirstSteps.
Context `{!Lib}.
Variable c : SeriesCheck.


Lemma presenceChecks_present rule entries selector st qr :
  promQuery (prom c) (trace st) (instantQuery selector) = inl qr →
  0 < seriesCount qr →
  presenceChecks c rule entries selector st
  = (tt, mkSt (problems st) (trace st ++ [EvQuery (instantQuery selector)])).
Proof.
  intros Hq Hcount. unfold presenceChecks, instantSeriesCount. unfoldM.
  unfold instantQuery, seriesCount in *. simpl. rewrite Hq. simpl.
  by rewrite (proj2 (Z.ltb_lt _ _) Hcount).
Qed.

Lemma checkSelector_quiet rule entries selector st :
  (∀ tr q, ∃ qr, promQuery (prom c) tr q = inl qr ∧ 0 < seriesCount qr) →
  isAlertsMetric selector = false →
  quiet st → quiet (checkSelector c rule entries selector st).2.
Proof.
  intros Hprom Halerts [Hp Ht]. unfold checkSelector, isDisabled.
  unfold mbind at 1, M_bind. unfold ruleHasComment at 1. unfoldM. simpl.
  destruct (HasComment rule _); simpl.
  { split; [done|]. apply Forall_app. split; [done|]. by repeat constructor. }
  destruct (HasComment rule _); simpl.
  { split; [done|]. rewrite <- app_assoc. apply Forall_app.
    split; [done|]. by repeat constructor. }
  rewrite Halerts.
  match goal with
  | |- quiet (presenceChecks _ _ _ _ ?s).2 =>
      destruct (Hprom (trace s) (instantQuery selector)) as (qr & Hq & Hc);
      rewrite (presenceChecks_present rule entries selector s qr Hq Hc)
  end.
  split; [done|]. simpl. rewrite <- !app_assoc. apply Forall_app.
  split; [done|]. by repeat constructor.
Qed.

(** X5.  When every instant query finds a series, a rule whose selectors
    are not on the metrics of the alerting engine gets no finding, and the
    backend is never asked about the past. *)
Theorem healthy_selectors_pass rule entries :
  (∀ tr q, ∃ qr, promQuery (prom c) tr q = inl qr ∧ 0 < seriesCount qr) →
  Forall (fun s => isAlertsMetric s = false) (getSelectors (Query rule)) →
  problems (Check c rule entries) = []
  ∧ Forall (fun e => isRangeQuery e = false) (trace (Check c rule entries)).
Proof.
  intros Hprom Hall. unfold Check.
  destruct (SyntaxError rule); [by split|].
  assert (∀ l, Forall (fun s => isAlertsMetric s = false) l →
            ∀ seen st, quiet st →
              quiet (checkSelectors c rule entries l seen st).2) as Hloop.
  { intros l Hl. induction Hl as [|s l Hs Hl IH]; intros seen st Hq; [done|].
    simpl. destruct (seen !! selectorString s); [by apply IH|].
    unfold mbind, M_bind.
    pose proof (checkSelector_quiet rule entries s st Hprom Hs Hq) as Hstep.
    destruct (checkSelector c rule entries s st) as [[] st1].
    by apply IH. }
  apply (Hloop _ Hall). by split.
Qed.

Lemma find_record name entries :
  (∃ entry, List.find (providesRecord name) entries = Some entry)
  ↔ recordingRuleNamed name entries.
Proof.
  assert (∀ e, providesRecord name e = true
               ↔ RecordingRule e = Some name ∧ RuleError e = None) as Hspec.
  { intros e. unfold providesRecord. destruct (RecordingRule e) as [a|].
    - rewrite andb_true_iff, bool_decide_eq_true, String.eqb_eq.
      split; [intros (He & ->); done | intros (Ha & He)].
      injection Ha as ->. done.
    - split; [discriminate | intros [Ha _]; discriminate]. }
  unfold recordingRuleNamed. split.
  - intros [entry Hf]. apply List.find_some in Hf as [Hin Hp].
    exists entry. rewrite list_elem_of_In. by rewrite <- Hspec.
  - intros (entry & Hin & Ha & He).
    destruct (List.find (providesRecord name) entries) as [e|] eqn:Hf;
      [eauto|].
    exfalso. apply list_elem_of_In in Hin.
    pose proof (List.find_none _ _ Hf entry Hin) as Hn.
    assert (providesRecord name entry = true) as Hy by by apply Hspec.
    congruence.
Qed.

(** X6.  When the selector matches nothing now and the answer on the past
    of the bare metric holds no sample at all, the selector gets exactly
    one finding, on the bare selector: an Information when a recording rule
    of that name that parsed is among the entries, a Bug otherwise; and no
    further query is made. *)
Theorem never_present_finding rule entries selector st qr past :
  promQuery (prom c) (trace st) (instantQuery selector) = inl qr →
  seriesCount qr ≤ 0 →
  promRangeQuery (prom c) (trace st ++ [EvQuery (instantQuery selector)])
    (bareQuery selector) rangeLookback rangeStep = inl past →
  flatSamples (rqSamples past) = [] →
  ∃ p,
    presenceChecks c rule entries selector st
    = (tt,
       mkSt (problems st ++ [p])
         (trace st
            ++ [EvQuery (instantQuery selector);
                EvRangeQuery (bareQuery selector) rangeLookback rangeStep]))
    ∧ Fragment p = selectorString (stripLabels selector)
    ∧ (recordingRuleNamed (selectorString (stripLabels selector)) entries →
       Severity_ p = Information)
    ∧ (¬ recordingRuleNamed (selectorString (stripLabels selector)) entries →
       Severity_ p = Bug).
Proof.
  intros Hq Hcount Hr Hnone.
  pose proof (find_record (selectorString (stripLabels selector)) entries)
    as Hfind.
  assert (buildRanges rangeStep (rqSamples past) = []) as Hb
    by by apply buildRanges_structure.
  unfold presenceChecks, instantSeriesCount. unfoldM.
  unfold instantQuery, bareQuery, seriesCount in *. simpl. rewrite Hq. simpl.
  destruct (Z.ltb_spec 0
    (fold_left (fun series v => wrap64 (series + v)) (Series qr) 0)); [lia|].
  unfold mbind, M_bind, bareSelector. rewrite serieTimeRanges_run.
  cbn [trace problems]. rewrite Hr. cbn [ranges]. rewrite Hb. simpl.
  unfold neverPresent, bareSelector. unfoldM.
  destruct (List.find _ entries) as [e|] eqn:Hf; simpl;
    rewrite <- app_assoc; eexists; (split; [reflexivity|]); simpl;
    (split; [done|]); split; try done.
  - intros Hno. exfalso. apply Hno, Hfind. eauto.
  - intros Hyes. apply Hfind in Hyes as [e He]. congruence.
Qed.

End FirstSteps.

(** ** Labels and matchers *)

Lemma addSample_keeps_labels stp ls ts rs ls' :
  (∃ r, r ∈ rs ∧ labels r = ls') ∨ ls' = ls →
  ∃ r, r ∈ addSample stp ls rs ts ∧ labels r = ls'.
Proof.
  intros Hin. unfold addSample.
  destruct (extendFirst stp ls ts rs) as [rs'|] eqn:E.
  - destruct (extendFirst_Some _ _ _ _ _ E) as (i & r & Hi & Hc & _ & ->).
    apply covers_spec in Hc as (Hl & _).
    assert (i < length rs)%nat as Hlt by by eapply lookup_lt_Some.
    assert (mkTimeRange (labels r) (start r) (ts + stp)
            ∈ <[i := mkTimeRange (labels r) (start r) (ts + stp)]> rs)
      as Hnew.
    { apply list_elem_of_lookup. exists i. by apply list_lookup_insert_eq. }
    destruct Hin as [(r0 & Hr0 & Hl0)| ->].
    + apply list_elem_of_lookup in Hr0 as [k Hk].
      destruct (decide (k = i)) as [->|Hki].
      * rewrite Hi in Hk. injection Hk as <-. eauto.
      * exists r0. split; [|done]. apply list_elem_of_lookup. exists k.
        by rewrite list_lookup_insert_ne.
    + eauto.
  - destruct Hin as [(r0 & Hr0 & Hl0)| ->].
    + exists r0. split; [|done]. apply elem_of_app. by left.
    + exists (mkTimeRange ls ts (Time.Add ts stp)). split; [|done].
      apply elem_of_app. right. apply list_elem_of_here.
Qed.

Lemma buildRanges_labels stp samples ls :
  (∃ r, r ∈ buildRanges stp samples ∧ labels r = ls)
  ↔ ∃ ts, (ls, ts) ∈ flatSamples samples.
Proof.
  split.
  - intros (r & Hr & <-).
    destruct (buildRanges_structure stp samples) as (Hall & _).
    rewrite Forall_forall in Hall. destruct (Hall r Hr) as (Hin & _). eauto.
  - rewrite buildRanges_flat. generalize (@nil timeRange).
    induction (flatSamples samples) as [|p l IH]; intros rs [ts Hin].
    + by apply not_elem_of_nil in Hin.
    + simpl. apply elem_of_cons in Hin as [Heq|Hin].
      * assert (∀ l' rs', (∃ r, r ∈ rs' ∧ labels r = ls) →
          ∃ r, r ∈ fold_left (fun rs p => addSample stp p.1 rs p.2) l' rs'
               ∧ labels r = ls) as Hkeep.
        { induction l' as [|q l' IH']; intros rs' Hrs'; [done|].
          simpl. apply IH'. apply addSample_keeps_labels. by left. }
        apply Hkeep. apply addSample_keeps_labels. right. by subst p.
      * apply IH. eauto.
Qed.

Section LabelsAndMatchers.
Context `{!Lib}.
Variable c : SeriesCheck.

Lemma withLabelName_nil name tr :
  withLabelName name tr = []
  ↔ ∀ r, r ∈ ranges tr → labels r !! name = None.
Proof.
  unfold withLabelName. induction (ranges tr) as [|r rs IH].
  - split; [|done]. intros _ r Hr. by apply not_elem_of_nil in Hr.
  - rewrite filter_cons.
    destruct (decide (hasLabel name r = true)) as [Hh|Hh];
      unfold hasLabel in Hh.
    + split; [discriminate|]. intros Hall.
      apply bool_decide_eq_true in Hh as [v Hv].
      rewrite (Hall r (list_elem_of_here _ _)) in Hv. discriminate.
    + rewrite IH. split.
      * intros Hall r' Hr'. apply elem_of_cons in Hr' as [->|Hr'];
          [|by apply Hall].
        destruct (labels r !! name) eqn:Hv; [|done].
        exfalso. apply Hh, bool_decide_eq_true. eauto.
      * intros Hall r' Hr'. by apply Hall, list_elem_of_further.
Qed.

(** X7.  At step 3 the label is reported as never present, with a Bug on
    the selector, exactly when no sample of the answer belongs to a series
    that carries the label; otherwise the step reports nothing. *)
Theorem label_missing_finding rule selector hc name st qr :
  promRangeQuery (prom c) (trace st) (labelQuery selector name)
    rangeLookback rangeStep = inl qr →
  ((∀ p, p ∈ flatSamples (rqSamples qr) → p.1 !! name = None) →
   problems (labelCheck c rule selector hc name st).2
   = problems st ++ [labelMissing c rule selector name (historyOf qr)])
  ∧ ((∃ p, p ∈ flatSamples (rqSamples qr) ∧ is_Some (p.1 !! name)) →
     problems (labelCheck c rule selector hc name st).2 = problems st)
  ∧ Severity_ (labelMissing c rule selector name (historyOf qr)) = Bug
  ∧ Fragment (labelMissing c rule selector name (historyOf qr))
    = selectorString selector.
Proof.
  intros Hq.
  assert (problems (labelCheck c rule selector hc name st).2
          = problems st
            ++ (if (length (withLabelName name (historyOf qr)) =? 0)%nat
                then [labelMissing c rule selector name (historyOf qr)]
                else [])) as Hrun.
  { unfold labelCheck, mbind, M_bind. rewrite serieTimeRanges_run, Hq.
    fold (historyOf qr). unfoldM. cbn [problems trace].
    destruct (length (withLabelName name (historyOf qr)) =? 0)%nat;
      destruct (highChurn name (historyOf qr)); simpl;
      by rewrite ?app_nil_r. }
  split; [|split; [|done]].
  - intros Hnone. rewrite Hrun.
    assert (withLabelName name (historyOf qr) = []) as ->; [|done].
    apply withLabelName_nil. intros r Hr.
    assert (∃ ts, (labels r, ts) ∈ flatSamples (rqSamples qr)) as [ts Hts]
      by (apply (buildRanges_labels rangeStep); eauto).
    apply (Hnone _ Hts).
  - intros (p & Hp & Hsome). rewrite Hrun.
    destruct (withLabelName name (historyOf qr)) as [|r rs] eqn:Hw;
      [|simpl; by rewrite app_nil_r].
    exfalso. rewrite withLabelName_nil in Hw.
    assert (∃ r, r ∈ buildRanges rangeStep (rqSamples qr)
                 ∧ labels r = p.1) as (r & Hr & Hl)
      by (apply buildRanges_labels; exists p.2; by destruct p).
    specialize (Hw r Hr). rewrite Hl in Hw. rewrite Hw in Hsome.
    by destruct Hsome.
Qed.

Lemma ignore_spec rule selector name :
  ignoredBy rule selector name
  = existsb (HasComment rule) (ignoreKeys selector name)
  ∧ ignoreLookups rule selector name
    = EvHasComment <$> untilFound rule (ignoreKeys selector name).
Proof.
  unfold ignoredBy, ignoreLookups, isLabelValueIgnored, ignoreKeys, foldM,
    Reporter. unfoldM. simpl.
  repeat match goal with
         | |- context [HasComment rule ?s] =>
             destruct (HasComment rule s); simpl
         end; done.
Qed.

(** X9.  In the loop over the matchers, a matcher on the name of the
    metric, an inequality and a negated regular expression cost nothing: no
    call is made for them.  For the other matchers the three directives
    [ignore/label-value] are looked up in turn until one is found; if one
    is, the label is left alone, without query and without finding, and if
    none is, the history of the matcher is asked for. *)
Theorem matcher_queried_iff rule selector trs hc lm st :
  (lmName lm = MetricName ∨ lmType lm = MatchNotEqual
   ∨ lmType lm = MatchNotRegexp →
   matcherCheck c rule selector trs hc lm st = (tt, st))
  ∧ (lmName lm ≠ MetricName →
     lmType lm = MatchEqual ∨ lmType lm = MatchRegexp →
     existsb (HasComment rule) (ignoreKeys selector (lmName lm)) = true →
     matcherCheck c rule selector trs hc lm st
     = (tt,
        mkSt (problems st)
          (trace st
             ++ (EvHasComment
                   <$> untilFound rule (ignoreKeys selector (lmName lm))))))
  ∧ (lmName lm ≠ MetricName →
     lmType lm = MatchEqual ∨ lmType lm = MatchRegexp →
     existsb (HasComment rule) (ignoreKeys selector (lmName lm)) = false →
     ∃ evs,
       trace (matcherCheck c rule selector trs hc lm st).2
       = trace st
         ++ (EvHasComment <$> ignoreKeys selector (lmName lm))
         ++ EvRangeQuery (matcherQuery selector lm) rangeLookback rangeStep
            :: evs).
Proof.
  destruct (ignore_spec rule selector (lmName lm)) as [Hign Hlook].
  split; [|split].
  - intros Hskip. unfold matcherCheck.
    destruct (String.eqb_spec (lmName lm) MetricName) as [|Hn]; [done|].
    destruct Hskip as [|[-> | ->]]; done.
  - intros Hn Htype Hyes. unfold matcherCheck.
    rewrite (proj2 (String.eqb_neq _ _) Hn).
    assert (negb (bool_decide (lmType lm = MatchEqual))
            && negb (bool_decide (lmType lm = MatchRegexp)) = false) as ->
      by (destruct Htype as [-> | ->]; reflexivity).
    unfold mbind, M_bind. rewrite isLabelValueIgnored_run, Hign, Hyes.
    by rewrite Hlook.
  - intros Hn Htype Hno. unfold matcherCheck.
    rewrite (proj2 (String.eqb_neq _ _) Hn).
    assert (negb (bool_decide (lmType lm = MatchEqual))
            && negb (bool_decide (lmType lm = MatchRegexp)) = false) as ->
      by (destruct Htype as [-> | ->]; reflexivity).
    unfold mbind, M_bind. rewrite isLabelValueIgnored_run, Hign, Hno.
    rewrite serieTimeRanges_run. rewrite Hlook.
    assert (untilFound rule (ignoreKeys selector (lmName lm))
            = ignoreKeys selector (lmName lm)) as ->.
    { unfold ignoreKeys in *. simpl in *.
      repeat match goal with
             | H : context [HasComment rule ?s] |- _ =>
                 destruct (HasComment rule s); simpl in H;
                 try discriminate H
             end; done. }
    match goal with
    | |- context [match ?r with inl _ => _ | inr _ => _ end] =>
        destruct r as [qr|err]
    end.
    + match goal with
      | |- ∃ evs, trace (matcherHistory _ _ _ _ _ _ ?t ?s).2 = _ =>
          destruct (grows_matcherHistory c rule selector trs hc lm t s)
            as (ps & evs & ->)
      end.
      exists evs. simpl. by rewrite <- !app_assoc.
    + exists []. unfoldM. simpl. by rewrite <- !app_assoc.
Qed.

End LabelsAndMatchers.

(** ** The last steps of the pipeline *)

Section LastSteps.
Context `{!Lib}.
Variable c : SeriesCheck.

(** X15.  A matcher whose history is one interval that does not end before
    it starts: if the interval reaches to within one step of the end of the
    window, the matcher is fine and nothing is reported or looked up;
    otherwise [min-age] is resolved, its Warnings are reported, and a Bug on
    the selector of the matcher follows unless the interval ended within
    [min-age] of the end of the window. *)
Theorem matcher_single_interval rule selector trs hc lm trsLabel r st :
  ranges trsLabel = [r] → start r ≤ end_ r →
  (until trsLabel - rangeStep ≤ end_ r →
   matcherHistory c rule selector trs hc lm trsLabel st = (tt, st))
  ∧ (end_ r < until trsLabel - rangeStep →
     matcherHistory c rule selector trs hc lm trsLabel st
     = (tt,
        mkSt (problems st ++ minAgeWarnings rule selector
                ++ (if withinMinAge trsLabel (resolvedMinAge rule selector)
                    then []
                    else [matcherLastSeen c rule selector trs lm trsLabel]))
          (trace st
             ++ [EvGetComment globalKey; EvGetComment (bareKey selector);
                 EvGetComment (selectorKey selector)])))
  ∧ Severity_ (matcherLastSeen c rule selector trs lm trsLabel) = Bug
  ∧ Fragment (matcherLastSeen c rule selector trs lm trsLabel)
    = selectorString (labelSelector selector lm).
Proof.
  intros Hr Hle. pose proof (matcherGone_any_start trsLabel r Hr Hle) as Hg.
  unfold Time.Before in Hg.
  split; [|split; [|done]].
  - intros Hstill. unfold matcherHistory. rewrite Hr. simpl.
    by rewrite Hg, (proj2 (Z.ltb_ge _ _) Hstill).
  - intros Hgone. unfold matcherHistory. rewrite Hr. simpl.
    rewrite Hg, (proj2 (Z.ltb_lt _ _) Hgone).
    apply matcherDisappearance_run.
Qed.

Lemma forM_name_matchers rule selector trs hc lms st :
  Forall nameMatcher lms →
  forM (matcherCheck c rule selector trs hc) lms st = (tt, st).
Proof.
  intros Hall. revert st. induction Hall as [|lm lms Hn Hall IH]; intros st.
  - done.
  - cbn [forM]. unfold mbind, M_bind. unfold matcherCheck at 1.
    unfold nameMatcher in Hn. rewrite (proj2 (String.eqb_eq _ _) Hn).
    unfold mret, M_ret. apply IH.
Qed.

(** X16.  A selector with no matcher besides the name of the metric, checked
    with no finding accumulated so far: when its history is not that of a
    metric that disappeared, the part of the pipeline that follows step 2
    makes no call at all and reports one thing at most, the Warning of
    step 8, exactly when the history has more than one interval. *)
Theorem bare_selector_history rule selector trs st :
  Forall nameMatcher (LabelMatchers selector) →
  problems st = [] → metricGone trs = false →
  historyChecks c rule selector trs st
  = (tt,
     mkSt (if (1 <? length (ranges trs))%nat
           then [metricSometimes c rule selector trs] else [])
       (trace st)).
Proof.
  intros Hall Hp Hgone.
  assert (labelNames selector = []) as Hnames.
  { unfold labelNames. induction Hall as [|lm lms Hn Hall IH]; [done|].
    rewrite filter_cons. unfold nameMatcher in Hn.
    rewrite (proj2 (String.eqb_eq _ _) Hn). simpl. exact IH. }
  unfold historyChecks. rewrite Hnames. cbn [foldM].
  unfold mbind, M_bind, mret, M_ret, lenProblems. rewrite Hp. simpl.
  unfold deeperChecks. rewrite Hgone. unfold mbind, M_bind.
  rewrite (forM_name_matchers rule selector trs [] _ st Hall).
  unfold lenProblems. rewrite Hp. simpl. unfold metricIntermittent.
  destruct (1 <? length (ranges trs))%nat; unfoldM; simpl.
  - by rewrite Hp.
  - destruct st. simpl in *. by subst.
Qed.

End LastSteps.

(** ** The further properties at work *)

Section FurtherWitnesses.
Import World Cases.
#[local] Existing Instance lib.

Lemma checkSelectors_skips_duplicate_witness :
  checkSelectors (mkSeriesCheck promSometimes) (ruleOf upTwice) []
    ([upSelector] ++ upSelector :: []) ∅ emptyState
  = checkSelectors (mkSeriesCheck promSometimes) (ruleOf upTwice) []
      ([upSelector] ++ []) ∅ emptyState.
Proof.
  apply checkSelectors_skips_duplicate. right. exists upSelector.
  split; [apply list_elem_of_here | reflexivity].
Defined.


Lemma healthy_selectors_pass_witness :
  problems (Check (mkSeriesCheck promPresent) (ruleOf fooJobNode) []) = [].
Proof.
  destruct (healthy_selectors_pass (mkSeriesCheck promPresent)
              (ruleOf fooJobNode) []) as [Hp _].
  - intros tr q. exists (mkQueryResult "http://prom" [1]).
    split; reflexivity.
  - repeat constructor.
  - exact Hp.
Defined.

Lemma never_present_finding_witness :
  ∃ p, problems (presenceChecks (mkSeriesCheck promEmpty) (ruleOf fooNode)
                   fooRecorded fooSelector emptyState).2 = [p]
       ∧ Severity_ p = Information.
Proof.
  destruct (never_present_finding (mkSeriesCheck promEmpty) (ruleOf fooNode)
              fooRecorded fooSelector emptyState
              (mkQueryResult "http://prom" [])
              (mkRangeQueryResult "http://prom" windowStart windowEnd []))
    as (p & Hrun & _ & Hinfo & _).
  - reflexivity.
  - vm_compute. discriminate.
  - reflexivity.
  - reflexivity.
  - exists p. rewrite Hrun. split; [reflexivity|]. apply Hinfo.
    exists (mkEntry "rules.yml" None (Some "foo") None).
    split; [apply list_elem_of_here | split; reflexivity].
Defined.

Lemma label_missing_finding_witness :
  problems (labelCheck (mkSeriesCheck promShort) (ruleOf fooJobNode) fooJob
              [] "job" emptyState).2 = [].
Proof.
  destruct (label_missing_finding (mkSeriesCheck promShort)
              (ruleOf fooJobNode) fooJob [] "job" emptyState shortAnswer
              eq_refl) as (_ & Hsome & _).
  apply Hsome.
  exists ({[ "job" := "api" ]}, TimestampTime 1700000000000).
  split; [apply list_elem_of_here|]. exists "api". reflexivity.
Defined.

Lemma oldest_newest_extremes_witness :
  ∃ r, r ∈ ranges twoHistory ∧ oldest twoHistory = start r.
Proof.
  destruct (oldest_newest_extremes twoHistory) as [Hold _].
  - vm_compute. discriminate.
  - vm_compute. repeat constructor.
  - exact Hold.
Defined.

Lemma buildRanges_covers_witness :
  ∃ r, r ∈ buildRanges rangeStep (rqSamples shortAnswer)
       ∧ labels r = {[ "job" := "api" ]}
       ∧ start r ≤ TimestampTime 1700000000900 < end_ r.
Proof.
  apply buildRanges_covers.
  - reflexivity.
  - intros [|[|i]] [|[|j]] p q Hij Hp Hq Hl; simpl in Hp, Hq;
      try lia; try discriminate.
    injection Hp as <-. injection Hq as <-. simpl. unfold TimestampTime.
    unfold Millisecond. lia.
  - apply list_elem_of_further, list_elem_of_here.
Defined.

Lemma matcher_single_interval_witness :
  problems (matcherHistory (mkSeriesCheck promLate) (ruleOf fooJobNode)
              fooJob fooHistory [] jobMatcher lateHistory emptyState).2
  = [matcherLastSeen (mkSeriesCheck promLate) (ruleOf fooJobNode) fooJob
       fooHistory jobMatcher lateHistory].
Proof.
  destruct (matcher_single_interval (mkSeriesCheck promLate)
              (ruleOf fooJobNode) fooJob fooHistory [] jobMatcher lateHistory
              (mkTimeRange ∅ (windowStart + 4 * 24 * Hour)
                 (windowEnd - 24 * Hour)) emptyState)
    as (_ & Hgone & _).
  - vm_compute. reflexivity.
  - vm_compute. discriminate.
  - rewrite Hgone by (vm_compute; reflexivity). vm_compute. reflexivity.
Defined.

Lemma bare_selector_history_witness :
  historyChecks (mkSeriesCheck promSometimes) (ruleOf upNode) upSelector
    upHistory emptyState
  = (tt,
     mkSt (if (1 <? length (ranges upHistory))%nat
           then [metricSometimes (mkSeriesCheck promSometimes) (ruleOf upNode)
                   upSelector upHistory]
           else [])
       (trace emptyState)).
Proof.
  apply bare_selector_history.
  - repeat constructor.
  - reflexivity.
  - vm_compute. reflexivity.
Defined.

End FurtherWitnesses.
